(** * pulp_win admin extension: repository create / update / list commands

    A shallow embedding of
    [extensions_admin/pulp_win/extension/admin/repo.py] and the properties
    its specification states about it.

    Python dictionaries are finite maps ([gmap string _]); a command's
    console output, log records and calls to external collaborators are
    collected in a trace of events; Python exceptions are the left summand
    of the result.  Names follow the Python source. *)

From Stdlib Require Import Ascii String.
From stdpp Require Import gmap strings list fin_maps.

Set Warnings "-register-all".
#[local] Open Scope string_scope.

(** ** Python values *)

(** The values that occur as command-line arguments, notes and plugin
    configuration entries: [None], booleans, strings and dictionaries. *)
Inductive pyval : Type :=
| PyNone
| PyBool (b : bool)
| PyStr (s : string)
| PyDict (d : gmap string pyval).

(** Python truth value, as tested by [x or y]. *)
Definition truthy (v : pyval) : bool :=
  match v with
  | PyNone => false
  | PyBool b => b
  | PyStr s => negb (String.eqb s "")
  | PyDict d => negb (bool_decide (d = ∅))
  end.

(** [v is None] *)
Definition is_None (v : pyval) : bool :=
  match v with PyNone => true | _ => false end.

(** [v == s] for a string literal or constant [s]. *)
Definition eq_str (v : pyval) (s : string) : bool :=
  match v with PyStr s' => String.eqb s' s | _ => false end.

(** [s.replace(old, new)] for one-character [old] and [new]. *)
Fixpoint str_replace (old new : ascii) (s : string) : string :=
  match s with
  | EmptyString => EmptyString
  | String c rest =>
      String (if Ascii.eqb c old then new else c) (str_replace old new rest)
  end.

(** ** Exceptions, events and the command monad *)

(** The exceptions of Python that the commands can meet.
    [DanglingReference] is not one of them: it is the outcome of the model
    of the list command when a reference has no record in the store. *)
Inductive exn : Type :=
| InvalidConfig (msg : string)
| KeyError (key : string)
| TypeError
| IndexError
| DanglingReference
| RemoteError (msg : string).

(** The user-facing messages; [%(r)s] is kept as the value it is filled
    with. *)
Inductive message : Type :=
| Successfully_created_repository (r : pyval)
| Repository_successfully_updated (r : pyval)
| Repository_update_postponed.

Record distributor_descriptor : Type := {
  distributor_type : string;
  distributor_config : gmap string pyval;
  auto_publish : bool;
  distributor_id : string
}.

Inductive event : Type :=
| LOG_debug (text : string)
| LOG_debug_config (config : gmap string pyval)
| call_convert_removed_options (args : gmap string pyval)
| render_failure_message (text : string)
| render_success_message (msg : message)
| render_paragraph (msg : message)
| render_reasons (reasons : list string)
| call_create_and_configure
    (repo_id display_name description notes : pyval)
    (importer_type_id : string) (importer_config : gmap string pyval)
    (distributors : list distributor_descriptor)
| call_update_repo_and_plugins
    (repo_id display_name description notes : pyval)
    (importer_config : gmap string pyval)
    (distributor_configs : gmap string (gmap string pyval)).

(** A computation yields the events it emitted and either the exception it
    raised or its value. *)
Definition M (A : Type) : Type := (list event * (exn + A))%type.

Definition ret {A} (a : A) : M A := ([], inr a).

Definition raise {A} (e : exn) : M A := ([], inl e).

Definition emit (ev : event) : M unit := ([ev], inr tt).

Definition bind {A B} (m : M A) (k : A → M B) : M B :=
  match m with
  | (t, inl e) => (t, inl e)
  | (t, inr a) => let '(t', r) := k a in ((t ++ t')%list, r)
  end.

(** [try: body except InvalidConfig, e: handler(e)] *)
Definition try_except_InvalidConfig {A} (body : M A) (handler : string → M A)
  : M A :=
  match body with
  | (t, inl (InvalidConfig msg)) =>
      let '(t', r) := handler msg in ((t ++ t')%list, r)
  | other => other
  end.

Declare Scope cmd_scope.
Delimit Scope cmd_scope with cmd.
Notation "'let*' x ':=' m 'in' k" := (bind m (fun x => k))
  (at level 10, x pattern, m at level 100, k at level 200) : cmd_scope.
Notation "m ;; k" := (bind m (fun _ => k))
  (at level 100, k at level 200, right associativity) : cmd_scope.
#[local] Open Scope cmd_scope.

Definition trace {A} (m : M A) : list event := m.1.
Definition outcome {A} (m : M A) : exn + A := m.2.

(** ** Dictionary operations *)

(** [d.pop(k)], which raises [KeyError] when [k] is absent. *)
Definition dict_pop (d : gmap string pyval) (k : string)
  : M (pyval * gmap string pyval) :=
  match d !! k with
  | Some v => ret (v, delete k d)
  | None => raise (KeyError k)
  end.

(** [d.pop(k, default)] *)
Definition dict_pop_default (d : gmap string pyval) (k : string) (dflt : pyval)
  : pyval * gmap string pyval :=
  (default dflt (d !! k), delete k d).

(** [d.keys()]: Python 2 returns a list, a snapshot of the keys.  The order
    of a Python 2 dictionary is unspecified; the model takes the order of
    [map_to_list]. *)
Definition dict_keys (d : gmap string pyval) : list string :=
  (map_to_list d).*1.

(** [v[k] = x], which raises [TypeError] unless [v] is a dictionary. *)
Definition setitem (v : pyval) (k : string) (x : pyval) : M pyval :=
  match v with
  | PyDict d => ret (PyDict (<[k := x]> d))
  | _ => raise TypeError
  end.

(** ** External collaborators *)

(** Keywords and identifiers imported from [pulp.client.commands.options],
    [pulp.common.constants], [pulp_win.common.constants] and
    [pulp_win.common.ids]; their values are not part of this file of the
    repository and are kept abstract. *)
Class Names : Type := {
  OPTION_REPO_ID_keyword : string;
  OPTION_DESCRIPTION_keyword : string;
  OPTION_NAME_keyword : string;
  OPTION_NOTES_keyword : string;
  REPO_NOTE_TYPE_KEY : string;
  REPO_NOTE_WIN : string;
  TYPE_ID_IMPORTER_WIN : string;
  TYPE_ID_DISTRIBUTOR_WIN : string;
  WIN_DISTRIBUTOR_ID : string
}.

(** [pulp.client.arg_utils.convert_removed_options], which edits the
    dictionary it is given in place or raises.  The commands are defined
    over any behaviour of it. *)
Class RemovalConvention : Type := {
  convert_removed_options : gmap string pyval → exn + gmap string pyval
}.

(** The answer of [update_repo_and_plugins]: [is_async()] and
    [response_body.reasons]. *)
Record update_response : Type := {
  is_async : bool;
  reasons : list string
}.

(** The remote repository API, [self.context.server.repo]. *)
Class Server : Type := {
  create_and_configure :
    pyval → pyval → pyval → pyval → string → gmap string pyval →
    list distributor_descriptor → exn + unit;
  update_repo_and_plugins :
    pyval → pyval → pyval → pyval → gmap string pyval →
    gmap string (gmap string pyval) → exn + update_response
}.

Definition lift {A} (r : exn + A) : M A := ([], r).

(** ** Constants of the module *)

Definition IMPORTER_CONFIG_KEYS : list (string * string) := [].

Definition WIN_DISTRIBUTOR_CONFIG_KEYS : list (string * string) :=
  [ ("relative_url", "relative_url");
    ("http", "serve_http");
    ("https", "serve_https");
    ("checksum_type", "checksum_type");
    ("skip", "skip") ].

(** ** The configuration builder *)

Section ConfigBuilder.
Context {C : RemovalConvention}.

(** One round of the loop that turns hyphens into underscores:
    [v = kwargs.pop(k); kwargs[k.replace('-', '_')] = v]. *)
Definition translate_key (kwargs : gmap string pyval) (k : string)
  : exn + gmap string pyval :=
  match kwargs !! k with
  | Some v => inr (<[str_replace "-" "_" k := v]> (delete k kwargs))
  | None => inl (KeyError k)
  end.

Fixpoint translate_keys (ks : list string) (kwargs : gmap string pyval)
  : exn + gmap string pyval :=
  match ks with
  | [] => inr kwargs
  | k :: ks' =>
      match translate_key kwargs k with
      | inr kwargs' => translate_keys ks' kwargs'
      | inl e => inl e
      end
  end.

(** [plugin_config[plugin_key] = plugin_config.pop(cli_key, None)] for
    each pair of the table, in order. *)
Definition rename_key (plugin_config : gmap string pyval)
    (pair : string * string) : gmap string pyval :=
  let '(plugin_key, cli_key) := pair in
  <[plugin_key := default PyNone (plugin_config !! cli_key)]>
    (delete cli_key plugin_config).

Definition rename_keys (plugin_config_keys : list (string * string))
    (plugin_config : gmap string pyval) : gmap string pyval :=
  fold_left rename_key plugin_config_keys plugin_config.

(** [_prep_config(kwargs, plugin_config_keys)].  The dictionary [kwargs]
    is the caller's object and is edited in place, so its state when the
    call returns is returned next to the configuration. *)
Definition _prep_config (kwargs : gmap string pyval)
    (plugin_config_keys : list (string * string))
  : M (gmap string pyval * gmap string pyval) :=
  let* kwargs := lift (translate_keys (dict_keys kwargs) kwargs) in
  let user_arg_keys := plugin_config_keys.*2 in
  let plugin_config :=
    filter (λ kv : string * pyval, kv.1 ∈ user_arg_keys) kwargs in
  let plugin_config := rename_keys plugin_config_keys plugin_config in
  emit (call_convert_removed_options plugin_config) ;;
  let* plugin_config := lift (convert_removed_options plugin_config) in
  ret (kwargs, plugin_config).

Definition args_to_importer_config (kwargs : gmap string pyval)
  : M (gmap string pyval * gmap string pyval) :=
  let* (kwargs, importer_config) :=
    _prep_config kwargs IMPORTER_CONFIG_KEYS in
  emit (LOG_debug "Importer configuration options") ;;
  emit (LOG_debug_config importer_config) ;;
  ret (kwargs, importer_config).

Definition args_to_win_distributor_config (kwargs : gmap string pyval)
  : M (gmap string pyval * gmap string pyval) :=
  let* (kwargs, distributor_config) :=
    _prep_config kwargs WIN_DISTRIBUTOR_CONFIG_KEYS in
  emit (LOG_debug "Distributor configuration options") ;;
  emit (LOG_debug_config distributor_config) ;;
  ret (kwargs, distributor_config).
End ConfigBuilder.

(** What the removal convention makes of one value: [None] is stripped,
    the empty string becomes [None], anything else stays. *)
Definition strip_or_clear (v : pyval) : option pyval :=
  if is_None v then None
  else if eq_str v "" then Some PyNone
  else Some v.

(** Modelled from the spec: [convert_removed_options] is imported from
    [pulp.client.arg_utils] and its body is not part of this repository.
    What it does is taken from the two bullet points of [_prep_config]'s
    docstring that describe this step ("Strip out any None values which
    means the user did not specify the argument in the call", "Convert any
    empty strings into None which represents the user removing the config
    value") and from section 4.2, step 4, of the specification. *)
Definition documented_convert_removed_options (args : gmap string pyval)
  : gmap string pyval :=
  omap strip_or_clear args.

(** The removal convention as documented, which never raises. *)
#[export] Instance documented_convention : RemovalConvention :=
  {| convert_removed_options args :=
       inr (documented_convert_removed_options args) |}.

(** ** The create and update commands *)

(** [k in d] *)
Definition dict_contains {V} (d : gmap string V) (k : string) : bool :=
  bool_decide (is_Some (d !! k)).

(** [if k not in d: d[k] = v] *)
Definition set_if_absent (k : string) (v : pyval) (d : gmap string pyval)
  : gmap string pyval :=
  if negb (dict_contains d k) then <[k := v]> d else d.

Section Commands.
Context {N : Names} {C : RemovalConvention} {S : Server}.

(** The defaults that [MsiRepoCreateCommand.run] fills into the
    distributor configuration (the statements between the [try] block and
    the packaging of the distributors). *)
Definition create_defaults (repo_id : pyval)
    (win_distributor_config : gmap string pyval) : gmap string pyval :=
  let win_distributor_config :=
    set_if_absent "relative_url" repo_id win_distributor_config in
  let win_distributor_config :=
    if negb (dict_contains win_distributor_config "http")
       && negb (dict_contains win_distributor_config "https")
    then <["http" := PyBool false]>
           (<["https" := PyBool true]> win_distributor_config)
    else win_distributor_config in
  fold_left (λ config k, set_if_absent k (PyBool false) config)
    ["http"; "https"] win_distributor_config.

(** The first statements of [MsiRepoCreateCommand.run], "Gather data" and
    "Add a note to indicate this is an WIN repository": the values popped
    from [kwargs], the tagged notes and what is left of [kwargs]. *)
Definition create_gather_data (kwargs : gmap string pyval)
  : M (pyval * pyval * pyval * pyval * gmap string pyval) :=
  let* (repo_id, kwargs) := dict_pop kwargs OPTION_REPO_ID_keyword in
  let '(description, kwargs) :=
    dict_pop_default kwargs OPTION_DESCRIPTION_keyword PyNone in
  let '(display_name, kwargs) :=
    dict_pop_default kwargs OPTION_NAME_keyword PyNone in
  let* (notes, kwargs) := dict_pop kwargs OPTION_NOTES_keyword in
  let notes := if truthy notes then notes else PyDict ∅ in
  let* notes := setitem notes REPO_NOTE_TYPE_KEY (PyStr REPO_NOTE_WIN) in
  ret (repo_id, description, display_name, notes, kwargs).

(** The body of the [try] block of [MsiRepoCreateCommand.run]. *)
Definition create_build_configs (kwargs : gmap string pyval)
  : M (gmap string pyval * gmap string pyval) :=
  let* (kwargs, importer_config) := args_to_importer_config kwargs in
  let* (kwargs, win_distributor_config) :=
    args_to_win_distributor_config kwargs in
  ret (importer_config, win_distributor_config).

(** [MsiRepoCreateCommand.run], applied to its keyword arguments. *)
Definition MsiRepoCreateCommand_run (kwargs : gmap string pyval) : M unit :=
  let* (repo_id, description, display_name, notes, kwargs) :=
    create_gather_data kwargs in
  let* configs :=
    try_except_InvalidConfig
      (let* built := create_build_configs kwargs in ret (Some built))
      (λ msg, emit (render_failure_message msg) ;; ret None) in
  match configs with
  | None => ret tt
  | Some (importer_config, win_distributor_config) =>
      let win_distributor_config :=
        create_defaults repo_id win_distributor_config in
      let distributors :=
        [ {| distributor_type := TYPE_ID_DISTRIBUTOR_WIN;
             distributor_config := win_distributor_config;
             auto_publish := true;
             distributor_id := WIN_DISTRIBUTOR_ID |} ] in
      emit (call_create_and_configure repo_id display_name description
              notes TYPE_ID_IMPORTER_WIN importer_config distributors) ;;
      lift (create_and_configure repo_id display_name description notes
              TYPE_ID_IMPORTER_WIN importer_config distributors) ;;
      emit (render_success_message (Successfully_created_repository repo_id))
  end.

(** The first statements of [MsiRepoUpdateCommand.run], "Gather data". *)
Definition update_gather_data (kwargs : gmap string pyval)
  : M (pyval * pyval * pyval * pyval * gmap string pyval) :=
  let* (repo_id, kwargs) := dict_pop kwargs OPTION_REPO_ID_keyword in
  let '(description, kwargs) :=
    dict_pop_default kwargs OPTION_DESCRIPTION_keyword PyNone in
  let '(display_name, kwargs) :=
    dict_pop_default kwargs OPTION_NAME_keyword PyNone in
  let '(notes, kwargs) :=
    dict_pop_default kwargs OPTION_NOTES_keyword PyNone in
  ret (repo_id, description, display_name, notes, kwargs).

(** [MsiRepoUpdateCommand.run], applied to its keyword arguments. *)
Definition MsiRepoUpdateCommand_run (kwargs : gmap string pyval) : M unit :=
  let* (repo_id, description, display_name, notes, kwargs) :=
    update_gather_data kwargs in
  let* importer :=
    try_except_InvalidConfig
      (let* built := args_to_importer_config kwargs in ret (Some built))
      (λ msg, emit (render_failure_message msg) ;; ret None) in
  match importer with
  | None => ret tt
  | Some (kwargs, importer_config) =>
      let* distributor :=
        try_except_InvalidConfig
          (let* built := args_to_win_distributor_config kwargs in
           ret (Some built))
          (λ msg, emit (render_failure_message msg) ;; ret None) in
      match distributor with
      | None => ret tt
      | Some (kwargs, win_distributor_config) =>
          let distributor_configs : gmap string (gmap string pyval) :=
            {[ TYPE_ID_DISTRIBUTOR_WIN := win_distributor_config ]} in
          emit (call_update_repo_and_plugins repo_id display_name
                  description notes importer_config distributor_configs) ;;
          let* response :=
            lift (update_repo_and_plugins repo_id display_name description
                    notes importer_config distributor_configs) in
          if negb (is_async response)
          then emit (render_success_message
                       (Repository_successfully_updated repo_id))
          else emit (render_paragraph Repository_update_postponed) ;;
               emit (render_reasons (reasons response))
      end
  end.
End Commands.

(** ** The list command *)

(** A distributor and an importer entry of a repository record, with the
    fields the command reads ([x['id']], [importer['config']]) and the
    rest of the entry. *)
Record distributor_record : Type := {
  d_id : string;
  d_fields : gmap string pyval
}.

Record importer_record : Type := {
  i_config : gmap string pyval;
  i_fields : gmap string pyval
}.

(** A repository record of the listing: [r['id']], [r['notes']] and the
    optional [r['distributors']] and [r['importers']]. *)
Record RepositoryRecord : Type := {
  r_id : string;
  r_notes : gmap string pyval;
  r_distributors : option (list distributor_record);
  r_importers : option (list importer_record)
}.

(** The remote listing, [self.context.server.repo.repositories], which may
    answer differently each time it is asked: the first argument is the
    number of earlier calls. *)
Class ListingServer : Type := {
  repositories :
    nat → gmap string pyval → exn + list RepositoryRecord
}.

(** The records of a listing are Python objects shared between the cached
    list and the lists the command returns, so they live in a store and
    the lists hold references (positions in the store). *)
Record list_state : Type := {
  all_repos_cache : option (list nat);
  store : list RepositoryRecord;
  listing_calls : list (gmap string pyval)
}.

Definition L (A : Type) : Type := list_state → list_state * (exn + A).

Definition lret {A} (a : A) : L A := λ st, (st, inr a).

Definition lraise {A} (e : exn) : L A := λ st, (st, inl e).

Definition lbind {A B} (m : L A) (k : A → L B) : L B :=
  λ st, match m st with
        | (st', inr a) => k a st'
        | (st', inl e) => (st', inl e)
        end.

Declare Scope list_cmd_scope.
Delimit Scope list_cmd_scope with lcmd.
Notation "'let*' x ':=' m 'in' k" := (lbind m (fun x => k))
  (at level 10, x pattern, m at level 100, k at level 200) : list_cmd_scope.
Notation "m ;; k" := (lbind m (fun _ => k))
  (at level 100, k at level 200, right associativity) : list_cmd_scope.

(** Reading and updating the object behind a reference. *)
Definition deref (r : nat) : L RepositoryRecord :=
  λ st, match store st !! r with
        | Some x => (st, inr x)
        | None => (st, inl DanglingReference)
        end.

Definition assign (r : nat) (x : RepositoryRecord) : L unit :=
  λ st, ({| all_repos_cache := all_repos_cache st;
            store := <[r := x]> (store st);
            listing_calls := listing_calls st |}, inr tt).

(** [for r in l: body(r)] *)
Fixpoint for_each (l : list nat) (body : nat → L unit) : L unit :=
  match l with
  | [] => lret tt
  | r :: l' => lbind (body r) (λ _, for_each l' body)
  end.

(** [for repo in all_repos: if test(repo): acc.append(repo)] *)
Fixpoint collect (test : RepositoryRecord → bool) (all_repos acc : list nat)
  : L (list nat) :=
  match all_repos with
  | [] => lret acc
  | repo :: rest =>
      lbind (deref repo)
        (λ x, collect test rest (if test x then acc ++ [repo] else acc)%list)
  end.

Section ListCommand.
Context {N : Names} {R : ListingServer}.
#[local] Open Scope list_cmd_scope.

(** [MsiRepoListCommand.__init__]: the fields of a new instance. *)
Definition MsiRepoListCommand__init__ : L unit :=
  λ st, ({| all_repos_cache := None;
            store := store st;
            listing_calls := listing_calls st |}, inr tt).

(** [MsiRepoListCommand._all_repos] *)
Definition _all_repos (query_params : gmap string pyval) : L (list nat) :=
  λ st,
    match all_repos_cache st with
    | None =>
        let calls := (listing_calls st ++ [query_params])%list in
        match repositories (length (listing_calls st)) query_params with
        | inr response_body =>
            let refs := seq (length (store st)) (length response_body) in
            ({| all_repos_cache := Some refs;
                store := (store st ++ response_body)%list;
                listing_calls := calls |}, inr refs)
        | inl e =>
            ({| all_repos_cache := None;
                store := store st;
                listing_calls := calls |}, inl e)
        end
    | Some refs => (st, inr refs)
    end.

(** [REPO_NOTE_TYPE_KEY in notes and
     notes[REPO_NOTE_TYPE_KEY] == REPO_NOTE_WIN] *)
Definition has_win_note (repo : RepositoryRecord) : bool :=
  match r_notes repo !! REPO_NOTE_TYPE_KEY with
  | Some v => eq_str v REPO_NOTE_WIN
  | None => false
  end.

(** [notes.get(REPO_NOTE_TYPE_KEY, None) != REPO_NOTE_WIN] *)
Definition lacks_win_note (repo : RepositoryRecord) : bool :=
  negb (eq_str (default PyNone (r_notes repo !! REPO_NOTE_TYPE_KEY))
          REPO_NOTE_WIN).

(** [r['distributors'] =
     [x for x in r['distributors'] if x['id'] == WIN_DISTRIBUTOR_ID]] *)
Definition prune_distributors (r : RepositoryRecord) : RepositoryRecord :=
  match r_distributors r with
  | Some ds =>
      {| r_id := r_id r;
         r_notes := r_notes r;
         r_distributors :=
           Some (filter (λ x, String.eqb (d_id x) WIN_DISTRIBUTOR_ID = true) ds);
         r_importers := r_importers r |}
  | None => r
  end.

(** [MsiRepoListCommand.get_repositories] *)
Definition get_repositories (query_params : gmap string pyval)
  : L (list nat) :=
  let* all_repos := _all_repos query_params in
  let* msi_repos := collect has_win_note all_repos [] in
  for_each msi_repos (λ r,
    let* x := deref r in
    match r_distributors x with
    | Some _ => assign r (prune_distributors x)
    | None => lret tt
    end) ;;
  for_each msi_repos (λ r,
    let* x := deref r in
    match r_importers x with
    | None => lret tt
    | Some importers =>
        match importers with
        | importer :: _ => let imp_config := i_config importer in lret tt
        | [] => lraise IndexError
        end
    end) ;;
  lret msi_repos.

(** [MsiRepoListCommand.get_other_repositories] *)
Definition get_other_repositories (query_params : gmap string pyval)
  : L (list nat) :=
  let* all_repos := _all_repos query_params in
  let* non_msi_repos := collect lacks_win_note all_repos [] in
  lret non_msi_repos.
End ListCommand.

(** ** Definitions used in the statements *)

(** [k.replace('-', '_')] *)
Abbreviation underscored := (str_replace "-" "_").

(** The key tables for which the renaming loop moves every CLI key to its
    plugin key: no plugin key and no CLI key occurs twice, and no plugin
    key is the CLI key of a later pair. *)
Fixpoint renames_cleanly (keys : list (string * string)) : Prop :=
  match keys with
  | [] => True
  | (plugin_key, cli_key) :: rest =>
      (plugin_key ∉ rest.*1) ∧ (cli_key ∉ rest.*2) ∧ (plugin_key ∉ rest.*2)
      ∧ renames_cleanly rest
  end.

#[local] Instance renames_cleanly_dec keys : Decision (renames_cleanly keys).
Proof. induction keys as [|[pk ck] keys IH]; simpl; apply _. Defined.

(** The configuration [_prep_config] hands to [convert_removed_options],
    from the state [kwargs'] of the arguments after the hyphen loop. *)
Definition renamed_config (keys : list (string * string))
    (kwargs' : gmap string pyval) : gmap string pyval :=
  rename_keys keys (filter (λ kv : string * pyval, kv.1 ∈ keys.*2) kwargs').

(** The configuration built under the documented convention. *)
Definition built_config (keys : list (string * string))
    (kwargs' : gmap string pyval) : gmap string pyval :=
  documented_convert_removed_options (renamed_config keys kwargs').

(** The value of a command-line argument, [None] when it was not given. *)
Definition argument (kwargs : gmap string pyval) (k : string) : pyval :=
  default PyNone (kwargs !! k).

(** The property of the builder as the specification words it: the result
    has no key outside the plugin keys of the table and has every plugin
    key of the table. *)
Definition closed_and_exhaustive (kwargs : gmap string pyval)
    (plugin_config_keys : list (string * string)) : Prop :=
  ∃ kwargs' config,
    outcome (_prep_config (C := documented_convention) kwargs
               plugin_config_keys) = inr (kwargs', config)
    ∧ (∀ k, is_Some (config !! k) → k ∈ plugin_config_keys.*1)
    ∧ (∀ k, k ∈ plugin_config_keys.*1 → is_Some (config !! k))
    ∧ (∀ plugin_key cli_key,
         (plugin_key, cli_key) ∈ plugin_config_keys →
         argument kwargs' cli_key = PyNone →
         config !! plugin_key = Some PyNone).

(** [notes or {}], then [notes[REPO_NOTE_TYPE_KEY] = REPO_NOTE_WIN], when
    the result is a dictionary. *)
Definition tagged_notes `{N : Names} (v : pyval) : option (gmap string pyval) :=
  if truthy v
  then match v with
       | PyDict d => Some (<[REPO_NOTE_TYPE_KEY := PyStr REPO_NOTE_WIN]> d)
       | _ => None
       end
  else Some {[REPO_NOTE_TYPE_KEY := PyStr REPO_NOTE_WIN]}.

(** What is left of [kwargs] once [run] has popped its own four options. *)
Definition plugin_arguments `{N : Names} (kwargs : gmap string pyval)
  : gmap string pyval :=
  delete OPTION_NOTES_keyword
    (delete OPTION_NAME_keyword
       (delete OPTION_DESCRIPTION_keyword
          (delete OPTION_REPO_ID_keyword kwargs))).

(** The distributor descriptor that create packages for the call. *)
Definition win_descriptor `{N : Names} (config : gmap string pyval)
  : distributor_descriptor :=
  {| distributor_type := TYPE_ID_DISTRIBUTOR_WIN;
     distributor_config := config;
     auto_publish := true;
     distributor_id := WIN_DISTRIBUTOR_ID |}.

(** The events that are calls of the remote repository API. *)
Definition is_remote_call (ev : event) : bool :=
  match ev with
  | call_create_and_configure _ _ _ _ _ _ _ => true
  | call_update_repo_and_plugins _ _ _ _ _ _ => true
  | _ => false
  end.

(** A key without hyphen. *)
Definition hyphen_free (k : string) : Prop :=
  "-"%char ∉ list_ascii_of_string k.

(** The remote calls of a trace, in order. *)
Definition remote_calls (t : list event) : list event :=
  filter (λ ev, is_remote_call ev = true) t.

(** The events that render something to the user. *)
Definition is_rendering (ev : event) : bool :=
  match ev with
  | render_failure_message _ | render_success_message _
  | render_paragraph _ | render_reasons _ => true
  | _ => false
  end.

(** The events of the configuration builder. *)
Definition is_builder_event (ev : event) : bool :=
  match ev with
  | LOG_debug _ | LOG_debug_config _ | call_convert_removed_options _ => true
  | _ => false
  end.

(** ** Example environments *)

Definition example_names : Names :=
  {| OPTION_REPO_ID_keyword := "repo-id";
     OPTION_DESCRIPTION_keyword := "description";
     OPTION_NAME_keyword := "display-name";
     OPTION_NOTES_keyword := "note";
     REPO_NOTE_TYPE_KEY := "_repo-type";
     REPO_NOTE_WIN := "win-repo";
     TYPE_ID_IMPORTER_WIN := "win_importer";
     TYPE_ID_DISTRIBUTOR_WIN := "win_distributor";
     WIN_DISTRIBUTOR_ID := "win_distributor" |}.

Definition accepting_server : Server :=
  {| create_and_configure _ _ _ _ _ _ _ := inr tt;
     update_repo_and_plugins _ _ _ _ _ _ :=
       inr {| is_async := false; reasons := [] |} |}.

(** A removal convention that rejects every configuration, and one that
    rejects every configuration with an entry. *)
Definition rejecting_convention : RemovalConvention :=
  {| convert_removed_options _ := inl (InvalidConfig "rejected") |}.

Definition rejecting_entries_convention : RemovalConvention :=
  {| convert_removed_options args :=
       if decide (args = ∅) then inr args else inl (InvalidConfig "rejected") |}.

Definition example_kwargs : gmap string pyval :=
  {[ "repo-id" := PyStr "win1"; "note" := PyNone; "serve-http" := PyBool true ]}.

Definition example_descriptor : distributor_descriptor :=
  {| distributor_type := "win_distributor";
     distributor_config :=
       {[ "relative_url" := PyStr "win1"; "http" := PyBool true;
          "https" := PyBool false ]};
     auto_publish := true;
     distributor_id := "win_distributor" |}.

(** ** The list command: definitions used in the statements *)

(** The state with another store. *)
Definition set_store (st : list_state) (s : list RepositoryRecord) : list_state :=
  {| all_repos_cache := all_repos_cache st;
     store := s;
     listing_calls := listing_calls st |}.

(** A test on the record behind a reference; the test of
    [get_repositories] and that of [get_other_repositories]. *)
Definition test_at (test : RepositoryRecord → bool)
    (s : list RepositoryRecord) (r : nat) : bool :=
  match s !! r with Some x => test x | None => false end.

Definition win_at `{N : Names} (s : list RepositoryRecord) (r : nat) : bool :=
  test_at has_win_note s r.

Definition other_at `{N : Names} (s : list RepositoryRecord) (r : nat) : bool :=
  test_at lacks_win_note s r.

(** The references behind which the store has a record. *)
Definition valid_ref (s : list RepositoryRecord) (r : nat) : bool :=
  match s !! r with Some _ => true | None => false end.

(** The calls the base class makes on one instance of the list command;
    an invocation is a new instance and any sequence of these calls, ended
    by the first exception. *)
Inductive list_op : Type :=
| op_get_repositories (query_params : gmap string pyval)
| op_get_other_repositories (query_params : gmap string pyval).

Definition run_op `{N : Names} `{R : ListingServer} (op : list_op)
  : L (list nat) :=
  match op with
  | op_get_repositories query_params => get_repositories query_params
  | op_get_other_repositories query_params =>
      get_other_repositories query_params
  end.

Fixpoint run_ops `{N : Names} `{R : ListingServer} (ops : list list_op)
  : L (list (list nat)) :=
  match ops with
  | [] => lret []
  | op :: rest =>
      lbind (run_op op)
        (λ result, lbind (run_ops rest) (λ results, lret (result :: results)))
  end.

Definition invocation `{N : Names} `{R : ListingServer} (ops : list list_op)
  : L (list (list nat)) :=
  lbind MsiRepoListCommand__init__ (λ _, run_ops ops).

Definition op_test `{N : Names} (op : list_op)
    (s : list RepositoryRecord) (r : nat) : bool :=
  match op with
  | op_get_repositories _ => win_at s r
  | op_get_other_repositories _ => other_at s r
  end.

(** The store after the pruning loop over the references [l]. *)
Definition prune_all `{N : Names} (s : list RepositoryRecord) (l : list nat)
  : list RepositoryRecord :=
  fold_left (λ s r, alter prune_distributors r s) l s.

(** The records on which [r['importers'][0]] is defined. *)
Definition importers_ok (s : list RepositoryRecord) (r : nat) : bool :=
  match s !! r with
  | Some x => match r_importers x with Some [] => false | _ => true end
  | None => true
  end.

(** The query of a call. *)
Definition op_query (op : list_op) : gmap string pyval :=
  match op with
  | op_get_repositories query_params => query_params
  | op_get_other_repositories query_params => query_params
  end.

(** [x'] is [x] up to its [distributors]. *)
Definition same_but_distributors (x x' : RepositoryRecord) : Prop :=
  r_id x' = r_id x ∧ r_notes x' = r_notes x ∧ r_importers x' = r_importers x.

(** The state of an instance that has fetched the listing [body] into the
    store from position [base] on. *)
Definition holds_snapshot (st : list_state) (base : nat)
    (body : list RepositoryRecord) : Prop :=
  all_repos_cache st = Some (seq base (length body))
  ∧ length (store st) = base + length body
  ∧ ∀ i x, body !! i = Some x →
      ∃ x', store st !! (base + i) = Some x' ∧ same_but_distributors x x'.

(** The listings on which [r['importers'][0]] is defined for every record
    that [get_repositories] retains. *)
Definition importers_usable `{N : Names} (body : list RepositoryRecord) : Prop :=
  Forall (λ x, has_win_note x = true → r_importers x ≠ Some []) body.

(** ** Example listings *)

Definition example_win_repo : RepositoryRecord :=
  {| r_id := "win1";
     r_notes := {[ "_repo-type" := PyStr "win-repo" ]};
     r_distributors :=
       Some [ {| d_id := "other-dist"; d_fields := ∅ |};
              {| d_id := "win_distributor"; d_fields := ∅ |} ];
     r_importers := None |}.

Definition example_other_repo : RepositoryRecord :=
  {| r_id := "rpm1";
     r_notes := {[ "_repo-type" := PyStr "rpm-repo" ]};
     r_distributors := None;
     r_importers := None |}.

Definition example_listing_server : ListingServer :=
  {| repositories _ _ := inr [example_win_repo; example_other_repo] |}.

(** A listing with details, in which a repository tagged as WIN has no
    importer. *)
Definition win_repo_without_importer : RepositoryRecord :=
  {| r_id := "win2";
     r_notes := {[ "_repo-type" := PyStr "win-repo" ]};
     r_distributors := Some [];
     r_importers := Some [] |}.

Definition detailed_listing_server : ListingServer :=
  {| repositories _ _ := inr [win_repo_without_importer] |}.

(** The state in which a list command is created. *)
Definition new_command : list_state :=
  {| all_repos_cache := None; store := []; listing_calls := [] |}.

(** The state after [get_repositories] on the example listing. *)
Definition example_listed : list_state :=
  {| all_repos_cache := Some [0; 1];
     store :=
       [ {| r_id := "win1";
            r_notes := {[ "_repo-type" := PyStr "win-repo" ]};
            r_distributors :=
              Some [ {| d_id := "win_distributor"; d_fields := ∅ |} ];
            r_importers := None |};
         example_other_repo ];
     listing_calls := [∅] |}.

(** A listing server that is down. *)
Definition failing_listing_server : ListingServer :=
  {| repositories _ _ := inl (RemoteError "unreachable") |}.

(** The state after the first fetch of the example listing. *)
Definition example_fetched : list_state :=
  {| all_repos_cache := Some [0; 1];
     store := [example_win_repo; example_other_repo];
     listing_calls := [∅] |}.

(** * Properties *)

Ltac in_trace := vm_compute; repeat constructor.

(** ** The configuration builder *)

(** *** The hyphen loop *)

Lemma str_replace_idem (old new : ascii) (s : string) :
  old ≠ new →
  str_replace old new (str_replace old new s) = str_replace old new s.
Proof.
  intros Hne. induction s as [|c s IH]; simpl; [done|].
  rewrite IH. f_equal.
  destruct (Ascii.eqb c old) eqn:Hc; [|by rewrite Hc].
  destruct (Ascii.eqb new old) eqn:Hn; [|done].
  apply Ascii.eqb_eq in Hn. congruence.
Qed.

Lemma underscored_idem (k : string) : underscored (underscored k) = underscored k.
Proof. by apply str_replace_idem. Qed.

Lemma dict_keys_NoDup (d : gmap string pyval) : NoDup (dict_keys d).
Proof. apply NoDup_fst_map_to_list. Qed.

Lemma elem_of_dict_keys (d : gmap string pyval) (k : string) :
  k ∈ dict_keys d ↔ is_Some (d !! k).
Proof.
  unfold dict_keys. rewrite list_elem_of_fmap. split.
  - intros [[k' v] [-> Hin]]. apply elem_of_map_to_list in Hin. by eexists.
  - intros [v Hv]. exists (k, v). split; [done|]. by apply elem_of_map_to_list.
Qed.

(** The loop over the snapshot of the keys never meets a missing key. *)
Lemma translate_keys_total (ks : list string) (kwargs : gmap string pyval) :
  NoDup ks → (∀ k, k ∈ ks → is_Some (kwargs !! k)) →
  ∃ kwargs', translate_keys ks kwargs = inr kwargs'.
Proof.
  revert kwargs. induction ks as [|k ks IH]; intros kwargs Hnd Hin; simpl.
  - by eexists.
  - apply NoDup_cons in Hnd as [Hk Hnd].
    destruct (Hin k) as [v Hv]; [by left|].
    unfold translate_key. rewrite Hv. apply IH; [done|].
    intros k' Hk'. destruct (decide (underscored k = k')) as [<-|Hne].
    + rewrite lookup_insert_eq. by eexists.
    + rewrite lookup_insert_ne by done. rewrite lookup_delete_ne.
      * apply Hin. by right.
      * intros ->. done.
Qed.

Lemma translate_keys_origin (ks : list string) (kwargs kwargs' : gmap string pyval) :
  NoDup ks → translate_keys ks kwargs = inr kwargs' →
  ∀ k' v, kwargs' !! k' = Some v →
    (∃ k, k ∈ ks ∧ underscored k = k' ∧ kwargs !! k = Some v)
    ∨ ((k' ∉ ks) ∧ kwargs !! k' = Some v).
Proof.
  revert kwargs. induction ks as [|k ks IH]; intros kwargs Hnd Hrun k' v Hv; simpl in *.
  - injection Hrun as <-. right. split; [apply not_elem_of_nil|done].
  - apply NoDup_cons in Hnd as [Hk Hnd].
    unfold translate_key in Hrun. destruct (kwargs !! k) as [vk|] eqn:Hvk; [|done].
    destruct (IH _ Hnd Hrun k' v Hv) as [(k2 & Hk2 & Htr & Hl)|[Hk' Hl]].
    + destruct (decide (underscored k = k2)) as [Heq|Hne].
      * subst k2. rewrite lookup_insert_eq in Hl. injection Hl as <-.
        left. exists k. split; [by left|]. split; [|done].
        by rewrite <- Htr, underscored_idem.
      * rewrite lookup_insert_ne in Hl by done.
        apply lookup_delete_Some in Hl as [_ Hl].
        left. exists k2. split; [by right|done].
    + destruct (decide (underscored k = k')) as [Heq|Hne].
      * subst k'. rewrite lookup_insert_eq in Hl. injection Hl as <-.
        left. exists k. split; [by left|done].
      * rewrite lookup_insert_ne in Hl by done.
        apply lookup_delete_Some in Hl as [Hkk Hl].
        right. split; [|done]. by intros [->|?]%elem_of_cons.
Qed.

Lemma translate_keys_dom (ks : list string) (kwargs kwargs' : gmap string pyval) :
  translate_keys ks kwargs = inr kwargs' →
  (∀ k, k ∈ ks → is_Some (kwargs' !! underscored k))
  ∧ (∀ k, k ∉ ks → is_Some (kwargs !! k) → is_Some (kwargs' !! k)).
Proof.
  revert kwargs. induction ks as [|k ks IH]; intros kwargs Hrun; simpl in *.
  - injection Hrun as <-. split; [by intros k ?%elem_of_nil|done].
  - unfold translate_key in Hrun. destruct (kwargs !! k) as [vk|] eqn:Hvk; [|done].
    destruct (IH _ Hrun) as [IH1 IH2]. split.
    + intros k2 [->|Hk2]%elem_of_cons; [|by apply IH1].
      destruct (decide (underscored k ∈ ks)) as [Hin|Hnin].
      * rewrite <- underscored_idem. by apply IH1.
      * apply IH2; [done|]. rewrite lookup_insert_eq. by eexists.
    + intros k2 Hk2 Hs. apply not_elem_of_cons in Hk2 as [Hne Hk2].
      apply IH2; [done|].
      destruct (decide (underscored k = k2)) as [->|Hne2].
      * rewrite lookup_insert_eq. by eexists.
      * rewrite lookup_insert_ne by done. by rewrite lookup_delete_ne.
Qed.

(** The state of the caller's dictionary after the hyphen loop. *)
Lemma hyphen_loop_total (kwargs : gmap string pyval) :
  ∃ kwargs', translate_keys (dict_keys kwargs) kwargs = inr kwargs'.
Proof.
  apply translate_keys_total; [apply dict_keys_NoDup|].
  intros k. by rewrite elem_of_dict_keys.
Qed.

Lemma hyphen_loop_origin (kwargs kwargs' : gmap string pyval) (k' : string) (v : pyval) :
  translate_keys (dict_keys kwargs) kwargs = inr kwargs' →
  kwargs' !! k' = Some v →
  ∃ k, underscored k = k' ∧ kwargs !! k = Some v.
Proof.
  intros Hrun Hv.
  destruct (translate_keys_origin _ _ _ (dict_keys_NoDup _) Hrun k' v Hv)
    as [(k & _ & Htr & Hl)|[Hk' Hl]]; [by exists k|].
  exfalso. apply Hk'. apply elem_of_dict_keys. by eexists.
Qed.

Lemma hyphen_loop_lookup (kwargs kwargs' : gmap string pyval) (k : string) (v : pyval) :
  translate_keys (dict_keys kwargs) kwargs = inr kwargs' →
  kwargs !! k = Some v →
  (∀ k2, is_Some (kwargs !! k2) → underscored k2 = underscored k → k2 = k) →
  kwargs' !! underscored k = Some v.
Proof.
  intros Hrun Hv Huniq.
  destruct (translate_keys_dom _ _ _ Hrun) as [Hdom _].
  destruct (Hdom k) as [v' Hv']; [apply elem_of_dict_keys; by eexists|].
  destruct (hyphen_loop_origin _ _ _ _ Hrun Hv') as (k2 & Htr & Hl).
  assert (k2 = k) as -> by (apply Huniq; [by eexists|done]).
  congruence.
Qed.

Lemma hyphen_loop_fixed (kwargs kwargs' : gmap string pyval) (k : string) :
  translate_keys (dict_keys kwargs) kwargs = inr kwargs' →
  is_Some (kwargs' !! k) → underscored k = k.
Proof.
  intros Hrun [v Hv].
  destruct (hyphen_loop_origin _ _ _ _ Hrun Hv) as (k2 & <- & _).
  apply underscored_idem.
Qed.

Lemma translate_keys_fixed (ks : list string) (kwargs : gmap string pyval) :
  (∀ k, k ∈ ks → is_Some (kwargs !! k) ∧ underscored k = k) →
  translate_keys ks kwargs = inr kwargs.
Proof.
  induction ks as [|k ks IH]; intros Hks; simpl; [done|].
  destruct (Hks k) as [[v Hv] Hfix]; [by left|].
  unfold translate_key. rewrite Hv, Hfix.
  rewrite insert_delete_id by done. apply IH. intros k' Hk'. apply Hks. by right.
Qed.

(** Running the loop on its own result changes nothing. *)
Lemma hyphen_loop_idem (kwargs kwargs' : gmap string pyval) :
  translate_keys (dict_keys kwargs) kwargs = inr kwargs' →
  translate_keys (dict_keys kwargs') kwargs' = inr kwargs'.
Proof.
  intros Hrun. apply translate_keys_fixed. intros k Hk.
  apply elem_of_dict_keys in Hk. split; [done|].
  by eapply hyphen_loop_fixed.
Qed.

(** *** Renaming *)

Lemma rename_keys_cons (pair : string * string) (keys : list (string * string))
    (c : gmap string pyval) :
  rename_keys (pair :: keys) c = rename_keys keys (rename_key c pair).
Proof. done. Qed.

Lemma rename_keys_frame (keys : list (string * string)) (c : gmap string pyval)
    (k : string) :
  k ∉ keys.*1 → k ∉ keys.*2 → rename_keys keys c !! k = c !! k.
Proof.
  revert c. induction keys as [|[pk ck] keys IH]; intros c H1 H2; [done|].
  rewrite rename_keys_cons. rewrite fmap_cons in H1, H2.
  apply not_elem_of_cons in H1 as [Hpk H1]. apply not_elem_of_cons in H2 as [Hck H2].
  rewrite IH by done. simpl in *.
  rewrite lookup_insert_ne by done. by rewrite lookup_delete_ne.
Qed.

(** Only plugin keys, and entries that no pair names as its CLI key,
    survive the renaming. *)
Lemma rename_keys_closure (keys : list (string * string)) (c : gmap string pyval)
    (k : string) :
  is_Some (rename_keys keys c !! k) →
  k ∈ keys.*1 ∨ (is_Some (c !! k) ∧ k ∉ keys.*2).
Proof.
  revert c. induction keys as [|[pk ck] keys IH]; intros c Hk.
  - right. split; [done|apply not_elem_of_nil].
  - rewrite rename_keys_cons in Hk. rewrite !fmap_cons. simpl.
    destruct (IH _ Hk) as [Hin|[Hs Hnin]]; [left; by right|].
    simpl in Hs. destruct (decide (pk = k)) as [->|Hne]; [left; by left|].
    rewrite lookup_insert_ne in Hs by done.
    destruct (decide (ck = k)) as [->|Hne2].
    + rewrite lookup_delete_eq in Hs. by destruct Hs.
    + rewrite lookup_delete_ne in Hs by done. right. split; [done|].
      by intros [->|?]%elem_of_cons.
Qed.

Lemma rename_keys_lookup (keys : list (string * string)) (c : gmap string pyval)
    (pk ck : string) :
  renames_cleanly keys → (pk, ck) ∈ keys →
  rename_keys keys c !! pk = Some (default PyNone (c !! ck)).
Proof.
  revert c. induction keys as [|[pk0 ck0] keys IH]; intros c Hok Hin.
  - by apply elem_of_nil in Hin.
  - destruct Hok as (Hp & Hc & Hpc & Hok). rewrite rename_keys_cons.
    apply elem_of_cons in Hin as [[= -> ->]|Hin].
    + rewrite rename_keys_frame by done. simpl. by rewrite lookup_insert_eq.
    + rewrite IH by done. simpl. do 2 f_equal.
      assert (ck ∈ keys.*2) as Hck.
      { apply list_elem_of_fmap. by exists (pk, ck). }
      rewrite lookup_insert_ne by (intros ->; done).
      rewrite lookup_delete_ne by (intros ->; done). done.
Qed.

(** In a table that does not rename cleanly the loop can lose a plugin
    key: here the second pair pops the entry the first pair has just
    written. *)
Example later_cli_key_takes_the_entry :
  rename_keys [("b", "c"); ("a", "b")] {[ "c" := PyStr "1" ]}
  = {[ "a" := PyStr "1" ]}.
Proof. vm_compute. reflexivity. Qed.

Lemma IMPORTER_CONFIG_KEYS_clean : renames_cleanly IMPORTER_CONFIG_KEYS.
Proof. done. Qed.

Lemma WIN_DISTRIBUTOR_CONFIG_KEYS_clean : renames_cleanly WIN_DISTRIBUTOR_CONFIG_KEYS.
Proof. apply (bool_decide_unpack _). by vm_compute. Qed.

(** *** The configuration before and after the removal convention *)

Lemma renamed_config_closure keys kwargs' k :
  is_Some (renamed_config keys kwargs' !! k) → k ∈ keys.*1.
Proof.
  intros [Hin|[[v Hv] Hnin]]%rename_keys_closure; [done|].
  apply map_lookup_filter_Some in Hv as [_ Hv]. done.
Qed.

Lemma renamed_config_lookup keys kwargs' pk ck :
  renames_cleanly keys → (pk, ck) ∈ keys →
  renamed_config keys kwargs' !! pk = Some (default PyNone (kwargs' !! ck)).
Proof.
  intros Hok Hin. unfold renamed_config. rewrite (rename_keys_lookup _ _ pk ck) by done.
  do 2 f_equal. rewrite map_lookup_filter.
  destruct (kwargs' !! ck) as [v|]; [simpl|done].
  rewrite option_guard_True; [done|].
  simpl. apply list_elem_of_fmap. by exists (pk, ck).
Qed.

Lemma prep_config_unfold `{C : RemovalConvention} kwargs kwargs' keys :
  translate_keys (dict_keys kwargs) kwargs = inr kwargs' →
  _prep_config kwargs keys =
    ([call_convert_removed_options (renamed_config keys kwargs')],
     match convert_removed_options (renamed_config keys kwargs') with
     | inr config => inr (kwargs', config)
     | inl e => inl e
     end).
Proof.
  intros Hrun. unfold _prep_config, lift. rewrite Hrun. simpl.
  fold (renamed_config keys kwargs').
  by destruct (convert_removed_options (renamed_config keys kwargs')).
Qed.

Lemma renamed_config_no_keys kwargs' : renamed_config [] kwargs' = ∅.
Proof.
  unfold renamed_config. simpl. apply map_eq. intros k.
  rewrite lookup_empty. apply map_lookup_filter_None. right.
  intros v _ Hin. by apply elem_of_nil in Hin.
Qed.

(** What the documented removal convention makes of an argument value:
    [None] (argument not given) is dropped, the empty string becomes an
    explicit [None], anything else is kept. *)
Lemma documented_lookup args k :
  documented_convert_removed_options args !! k = args !! k ≫= strip_or_clear.
Proof. apply lookup_omap. Qed.

Lemma built_config_closure keys kwargs' k :
  is_Some (built_config keys kwargs' !! k) → k ∈ keys.*1.
Proof.
  unfold built_config. rewrite documented_lookup. intros [v Hv].
  apply bind_Some in Hv as (v0 & Hv0 & _). apply (renamed_config_closure _ kwargs'). by eexists.
Qed.

Lemma built_config_lookup keys kwargs' pk ck :
  renames_cleanly keys → (pk, ck) ∈ keys →
  built_config keys kwargs' !! pk = strip_or_clear (default PyNone (kwargs' !! ck)).
Proof.
  intros Hok Hin. unfold built_config.
  by rewrite documented_lookup, (renamed_config_lookup _ _ pk ck).
Qed.

Lemma built_config_no_keys kwargs' : built_config [] kwargs' = ∅.
Proof. unfold built_config. rewrite renamed_config_no_keys. apply omap_empty. Qed.

Lemma prep_config_documented kwargs kwargs' keys :
  translate_keys (dict_keys kwargs) kwargs = inr kwargs' →
  _prep_config kwargs keys =
    ([call_convert_removed_options (renamed_config keys kwargs')],
     inr (kwargs', built_config keys kwargs')).
Proof. intros Hrun. by rewrite (prep_config_unfold _ kwargs'). Qed.

Lemma args_to_importer_config_documented kwargs kwargs' :
  translate_keys (dict_keys kwargs) kwargs = inr kwargs' →
  args_to_importer_config kwargs =
    ([call_convert_removed_options ∅;
      LOG_debug "Importer configuration options"; LOG_debug_config ∅],
     inr (kwargs', ∅)).
Proof.
  intros Hrun. unfold args_to_importer_config.
  rewrite (prep_config_documented _ kwargs') by done.
  unfold IMPORTER_CONFIG_KEYS. by rewrite built_config_no_keys, renamed_config_no_keys.
Qed.

Lemma args_to_win_distributor_config_documented kwargs kwargs' :
  translate_keys (dict_keys kwargs) kwargs = inr kwargs' →
  args_to_win_distributor_config kwargs =
    ([call_convert_removed_options
        (renamed_config WIN_DISTRIBUTOR_CONFIG_KEYS kwargs');
      LOG_debug "Distributor configuration options";
      LOG_debug_config (built_config WIN_DISTRIBUTOR_CONFIG_KEYS kwargs')],
     inr (kwargs', built_config WIN_DISTRIBUTOR_CONFIG_KEYS kwargs')).
Proof.
  intros Hrun. unfold args_to_win_distributor_config.
  by rewrite (prep_config_documented _ kwargs') by done.
Qed.

(** ** The create and update commands *)

(** *** The defaults of create *)

Lemma dict_contains_true {V} (d : gmap string V) k v :
  d !! k = Some v → dict_contains d k = true.
Proof. intros H. unfold dict_contains. apply bool_decide_eq_true. by eexists. Qed.

Lemma dict_contains_false {V} (d : gmap string V) k :
  d !! k = None → dict_contains d k = false.
Proof.
  intros H. unfold dict_contains. apply bool_decide_eq_false.
  rewrite H. by intros [? ?].
Qed.

Lemma set_if_absent_lookup k v d k' :
  set_if_absent k v d !! k' =
    if decide (k = k') then Some (default v (d !! k)) else d !! k'.
Proof.
  unfold set_if_absent. destruct (d !! k) as [x|] eqn:Hk.
  - rewrite (dict_contains_true _ _ _ Hk). simpl. case_decide; by subst.
  - rewrite (dict_contains_false _ _ Hk). simpl.
    case_decide; [subst; by rewrite lookup_insert_eq|by rewrite lookup_insert_ne].
Qed.

Section CreateDefaults.
Context {N : Names} {C : RemovalConvention} {S : Server}.
Implicit Types (repo_id : pyval) (config : gmap string pyval).

Lemma create_defaults_relative_url repo_id config :
  create_defaults repo_id config !! "relative_url"
  = Some (default repo_id (config !! "relative_url")).
Proof.
  unfold create_defaults. simpl. rewrite !set_if_absent_lookup. simpl.
  case_match; rewrite ?lookup_insert_ne by done;
    rewrite set_if_absent_lookup; by case_decide.
Qed.

Lemma create_defaults_http repo_id config :
  create_defaults repo_id config !! "http"
  = Some (default (PyBool false) (config !! "http")).
Proof.
  unfold create_defaults. simpl. rewrite !set_if_absent_lookup. simpl.
  case_match eqn:Hb.
  - rewrite lookup_insert_eq.
    apply andb_true_iff in Hb as [Hb _]. apply negb_true_iff in Hb.
    unfold dict_contains in Hb. apply bool_decide_eq_false in Hb.
    rewrite set_if_absent_lookup in Hb. simpl in Hb.
    destruct (config !! "http"); [|done]. exfalso. apply Hb. by eexists.
  - by rewrite set_if_absent_lookup.
Qed.

Lemma create_defaults_https repo_id config :
  create_defaults repo_id config !! "https"
  = Some (default (PyBool (negb (dict_contains config "http")))
            (config !! "https")).
Proof.
  unfold create_defaults. simpl. rewrite !set_if_absent_lookup. simpl.
  unfold dict_contains at 1 2. rewrite !set_if_absent_lookup. simpl.
  destruct (config !! "http") as [h|] eqn:Hh;
    destruct (config !! "https") as [s|] eqn:Hs; simpl.
  - by rewrite set_if_absent_lookup, Hs.
  - by rewrite set_if_absent_lookup, Hs, (dict_contains_true _ _ _ Hh).
  - by rewrite set_if_absent_lookup, Hs.
  - rewrite lookup_insert_ne by done. rewrite lookup_insert_eq.
    by rewrite (dict_contains_false _ _ Hh).
Qed.

Lemma create_defaults_other repo_id config k :
  k ≠ "relative_url" → k ≠ "http" → k ≠ "https" →
  create_defaults repo_id config !! k = config !! k.
Proof.
  intros H1 H2 H3. unfold create_defaults. simpl.
  rewrite !set_if_absent_lookup. rewrite !decide_False by done.
  case_match; rewrite ?lookup_insert_ne by done;
    rewrite set_if_absent_lookup; by rewrite decide_False.
Qed.
End CreateDefaults.

(** *** Gathering the arguments *)

Section Gather.
Context {N : Names}.

Lemma create_gather_data_trace kwargs : trace (create_gather_data kwargs) = [].
Proof.
  unfold create_gather_data, dict_pop, dict_pop_default, setitem.
  destruct (kwargs !! OPTION_REPO_ID_keyword); simpl; [|done].
  match goal with |- context [ ?m !! OPTION_NOTES_keyword ] =>
    destruct (m !! OPTION_NOTES_keyword) as [v|] end; simpl; [|done].
  destruct (truthy v); [by destruct v|done].
Qed.

Lemma create_gather_data_inv kwargs repo_id description display_name notes kw :
  outcome (create_gather_data kwargs)
    = inr (repo_id, description, display_name, notes, kw) →
  kwargs !! OPTION_REPO_ID_keyword = Some repo_id
  ∧ kw = plugin_arguments kwargs
  ∧ ∃ v d, kwargs !! OPTION_NOTES_keyword = Some v
           ∧ tagged_notes v = Some d ∧ notes = PyDict d.
Proof.
  unfold create_gather_data, dict_pop, dict_pop_default, setitem, plugin_arguments,
    tagged_notes.
  destruct (kwargs !! OPTION_REPO_ID_keyword) as [rid|] eqn:Hrid; simpl; [|done].
  match goal with |- context [ ?m !! OPTION_NOTES_keyword ] =>
    destruct (m !! OPTION_NOTES_keyword) as [v|] eqn:Hv end; simpl; [|done].
  assert (kwargs !! OPTION_NOTES_keyword = Some v) as Hv'.
  { by do 3 apply lookup_delete_Some in Hv as [_ Hv]. }
  destruct (truthy v) eqn:Ht; [destruct v; simpl; try done|simpl];
    intros [= <- <- <- <- <-]; (split; [done|]); (split; [done|]);
    eexists _, _; rewrite ?Ht; (split; [done|]); split; done.
Qed.

Lemma update_gather_data_trace kwargs : trace (update_gather_data kwargs) = [].
Proof.
  unfold update_gather_data, dict_pop, dict_pop_default.
  by destruct (kwargs !! OPTION_REPO_ID_keyword).
Qed.

Lemma update_gather_data_inv kwargs repo_id description display_name notes kw :
  outcome (update_gather_data kwargs)
    = inr (repo_id, description, display_name, notes, kw) →
  kwargs !! OPTION_REPO_ID_keyword = Some repo_id
  ∧ kw = plugin_arguments kwargs
  ∧ notes = default PyNone
      (delete OPTION_NAME_keyword
         (delete OPTION_DESCRIPTION_keyword
            (delete OPTION_REPO_ID_keyword kwargs)) !! OPTION_NOTES_keyword).
Proof.
  unfold update_gather_data, dict_pop, dict_pop_default, plugin_arguments.
  destruct (kwargs !! OPTION_REPO_ID_keyword) as [rid|] eqn:Hrid; simpl; [|done].
  by intros [= <- <- <- <- <-].
Qed.
End Gather.

(** *** The run methods *)

Lemma M_eta {A} (m : M A) : m = (trace m, outcome m).
Proof. by destruct m. Qed.

(** The [try] block of create under the documented removal convention. *)
Lemma create_build_configs_documented kw kw' :
  translate_keys (dict_keys kw) kw = inr kw' →
  create_build_configs kw =
    ([call_convert_removed_options ∅;
      LOG_debug "Importer configuration options"; LOG_debug_config ∅;
      call_convert_removed_options
        (renamed_config WIN_DISTRIBUTOR_CONFIG_KEYS kw');
      LOG_debug "Distributor configuration options";
      LOG_debug_config (built_config WIN_DISTRIBUTOR_CONFIG_KEYS kw')],
     inr (∅, built_config WIN_DISTRIBUTOR_CONFIG_KEYS kw')).
Proof.
  intros Hrun. unfold create_build_configs.
  rewrite (args_to_importer_config_documented _ kw') by done. simpl.
  by rewrite (args_to_win_distributor_config_documented _ kw')
    by (by eapply hyphen_loop_idem).
Qed.

Section RunGeneric.
Context {N : Names} {C : RemovalConvention} {S : Server}.

Lemma create_run_gather_fails kwargs e :
  outcome (create_gather_data kwargs) = inl e →
  MsiRepoCreateCommand_run kwargs = ([], inl e).
Proof.
  intros Hg. unfold MsiRepoCreateCommand_run.
  by rewrite (M_eta (create_gather_data kwargs)), create_gather_data_trace, Hg.
Qed.

Lemma prep_config_trace kwargs keys :
  Forall (λ ev, is_remote_call ev = false) (trace (_prep_config kwargs keys)).
Proof.
  destruct (hyphen_loop_total kwargs) as [kwargs' Hrun].
  rewrite (prep_config_unfold _ kwargs') by done. simpl. by repeat constructor.
Qed.

Lemma bind_trace_Forall {A B} (P : event → Prop) (m : M A) (k : A → M B) :
  Forall P (trace m) → (∀ a, Forall P (trace (k a))) →
  Forall P (trace (bind m k)).
Proof.
  intros Hm Hk. destruct m as [t [e|a]]; simpl in *; [done|].
  specialize (Hk a). destruct (k a) as [t' r]. simpl in *.
  by apply Forall_app.
Qed.

Lemma args_to_importer_config_trace kwargs :
  Forall (λ ev, is_remote_call ev = false) (trace (args_to_importer_config kwargs)).
Proof.
  unfold args_to_importer_config. apply bind_trace_Forall; [apply prep_config_trace|].
  intros [kw config]. simpl. by repeat constructor.
Qed.

Lemma args_to_win_distributor_config_trace kwargs :
  Forall (λ ev, is_remote_call ev = false)
    (trace (args_to_win_distributor_config kwargs)).
Proof.
  unfold args_to_win_distributor_config.
  apply bind_trace_Forall; [apply prep_config_trace|].
  intros [kw config]. simpl. by repeat constructor.
Qed.

Lemma create_build_configs_trace kwargs :
  Forall (λ ev, is_remote_call ev = false) (trace (create_build_configs kwargs)).
Proof.
  unfold create_build_configs.
  apply bind_trace_Forall; [apply args_to_importer_config_trace|].
  intros [kw config]. apply bind_trace_Forall; [apply args_to_win_distributor_config_trace|].
  by intros [kw' config'].
Qed.

(** [MsiRepoCreateCommand.run] once the data is gathered, by the outcome
    of the [try] block. *)
Lemma create_run_unfold kwargs repo_id description display_name notes kw :
  outcome (create_gather_data kwargs)
    = inr (repo_id, description, display_name, notes, kw) →
  MsiRepoCreateCommand_run kwargs =
    match outcome (create_build_configs kw) with
    | inr (importer_config, win_distributor_config) =>
        let distributors :=
          [win_descriptor (create_defaults repo_id win_distributor_config)] in
        let answer :=
          create_and_configure repo_id display_name description notes
            TYPE_ID_IMPORTER_WIN importer_config distributors in
        (trace (create_build_configs kw)
         ++ call_create_and_configure repo_id display_name description notes
              TYPE_ID_IMPORTER_WIN importer_config distributors
            :: match answer with
               | inr _ => [render_success_message
                             (Successfully_created_repository repo_id)]
               | inl _ => []
               end,
         match answer with inr _ => inr tt | inl e => inl e end)
    | inl (InvalidConfig msg) =>
        (trace (create_build_configs kw) ++ [render_failure_message msg],
         inr tt)
    | inl e => (trace (create_build_configs kw), inl e)
    end%list.
Proof.
  intros Hg. unfold MsiRepoCreateCommand_run.
  rewrite (M_eta (create_gather_data kwargs)), create_gather_data_trace, Hg.
  simpl. destruct (create_build_configs kw) as [t [e|[ic dc]]]; simpl.
  - destruct e; simpl; try done. by rewrite app_nil_r.
  - rewrite app_nil_r. unfold win_descriptor.
    by destruct (create_and_configure _ _ _ _ _ _ _) as [e|[]].
Qed.
End RunGeneric.

Section UpdateGeneric.
Context {N : Names} {C : RemovalConvention} {S : Server}.

Lemma update_run_gather_fails kwargs e :
  outcome (update_gather_data kwargs) = inl e →
  MsiRepoUpdateCommand_run kwargs = ([], inl e).
Proof.
  intros Hg. unfold MsiRepoUpdateCommand_run.
  by rewrite (M_eta (update_gather_data kwargs)), update_gather_data_trace, Hg.
Qed.

(** [MsiRepoUpdateCommand.run] once the data is gathered, by the outcomes
    of its two [try] blocks. *)
Lemma update_run_unfold kwargs repo_id description display_name notes kw :
  outcome (update_gather_data kwargs)
    = inr (repo_id, description, display_name, notes, kw) →
  MsiRepoUpdateCommand_run kwargs =
    let importer := args_to_importer_config kw in
    match outcome importer with
    | inr (kw1, importer_config) =>
        let distributor := args_to_win_distributor_config kw1 in
        match outcome distributor with
        | inr (kw2, win_distributor_config) =>
            let distributor_configs : gmap string (gmap string pyval) :=
              {[TYPE_ID_DISTRIBUTOR_WIN := win_distributor_config]} in
            let answer :=
              update_repo_and_plugins repo_id display_name description notes
                importer_config distributor_configs in
            (trace importer ++ trace distributor
             ++ call_update_repo_and_plugins repo_id display_name
                  description notes importer_config distributor_configs
                :: match answer with
                   | inr response =>
                       if negb (is_async response)
                       then [render_success_message
                               (Repository_successfully_updated repo_id)]
                       else [render_paragraph Repository_update_postponed;
                             render_reasons (reasons response)]
                   | inl _ => []
                   end,
             match answer with inr _ => inr tt | inl e => inl e end)
        | inl (InvalidConfig msg) =>
            (trace importer ++ trace distributor
             ++ [render_failure_message msg], inr tt)
        | inl e => (trace importer ++ trace distributor, inl e)
        end
    | inl (InvalidConfig msg) =>
        (trace importer ++ [render_failure_message msg], inr tt)
    | inl e => (trace importer, inl e)
    end%list.
Proof.
  intros Hg. unfold MsiRepoUpdateCommand_run.
  rewrite (M_eta (update_gather_data kwargs)), update_gather_data_trace, Hg.
  simpl. destruct (args_to_importer_config kw) as [t [e|[kw1 ic]]]; simpl.
  { destruct e; simpl; try done. by rewrite app_nil_r. }
  rewrite app_nil_r.
  destruct (args_to_win_distributor_config kw1) as [t' [e|[kw2 dc]]]; simpl.
  { destruct e; simpl; rewrite ?app_nil_r; try done. }
  rewrite app_nil_r.
  destruct (update_repo_and_plugins _ _ _ _ _ _) as [e|response]; simpl; [done|].
  by destruct (is_async response).
Qed.
End UpdateGeneric.

(** *** What the commands send to the server *)

Section InvalidConfig.
Context {N : Names} {C : RemovalConvention} {S : Server}.

(** C3. When building a configuration raises [InvalidConfig], create and
    update render the failure message and return without a remote call;
    in update a failure of the importer build ends the command after the
    importer's single call of the removal convention, so that the
    distributor build is never started. *)
Theorem invalid_config_is_reported_without_remote_call :
  (∀ kwargs repo_id description display_name notes kw msg,
     outcome (create_gather_data kwargs)
       = inr (repo_id, description, display_name, notes, kw) →
     outcome (create_build_configs kw) = inl (InvalidConfig msg) →
     MsiRepoCreateCommand_run kwargs
       = ((trace (create_build_configs kw) ++ [render_failure_message msg])%list,
          inr tt)
     ∧ Forall (λ ev, is_remote_call ev = false)
         (trace (MsiRepoCreateCommand_run kwargs)))
  ∧ (∀ kwargs repo_id description display_name notes kw msg,
       outcome (update_gather_data kwargs)
         = inr (repo_id, description, display_name, notes, kw) →
       outcome (args_to_importer_config kw) = inl (InvalidConfig msg) →
       MsiRepoUpdateCommand_run kwargs
         = ([call_convert_removed_options ∅; render_failure_message msg],
            inr tt))
  ∧ (∀ kwargs repo_id description display_name notes kw kw1 ic msg,
       outcome (update_gather_data kwargs)
         = inr (repo_id, description, display_name, notes, kw) →
       outcome (args_to_importer_config kw) = inr (kw1, ic) →
       outcome (args_to_win_distributor_config kw1)
         = inl (InvalidConfig msg) →
       MsiRepoUpdateCommand_run kwargs
         = ((trace (args_to_importer_config kw)
             ++ trace (args_to_win_distributor_config kw1)
             ++ [render_failure_message msg])%list, inr tt)
       ∧ Forall (λ ev, is_remote_call ev = false)
           (trace (MsiRepoUpdateCommand_run kwargs))).
Proof.
  split; [|split].
  - intros kwargs repo_id description display_name notes kw msg Hg Hb.
    rewrite (create_run_unfold _ _ _ _ _ _ Hg), Hb. split; [done|].
    simpl. apply Forall_app. split; [apply create_build_configs_trace|].
    by repeat constructor.
  - intros kwargs repo_id description display_name notes kw msg Hg Hi.
    rewrite (update_run_unfold _ _ _ _ _ _ Hg). simpl. rewrite Hi.
    f_equal. destruct (hyphen_loop_total kw) as [kw' Hrun].
    unfold args_to_importer_config in *.
    rewrite (prep_config_unfold _ kw') in * by done.
    unfold IMPORTER_CONFIG_KEYS in *. rewrite renamed_config_no_keys in *.
    by destruct (convert_removed_options ∅).
  - intros kwargs repo_id description display_name notes kw kw1 ic msg Hg Hi Hd.
    rewrite (update_run_unfold _ _ _ _ _ _ Hg). simpl. rewrite Hi, Hd.
    split; [done|]. simpl.
    rewrite !Forall_app. split; [apply args_to_importer_config_trace|].
    split; [apply args_to_win_distributor_config_trace|]. by repeat constructor.
Qed.
End InvalidConfig.

Lemma invalid_config_is_reported_witness :
  MsiRepoCreateCommand_run (N := example_names) (C := rejecting_convention)
      (S := accepting_server) example_kwargs
    = ([call_convert_removed_options ∅; render_failure_message "rejected"],
       inr tt)
  ∧ MsiRepoUpdateCommand_run (N := example_names) (C := rejecting_convention)
      (S := accepting_server) example_kwargs
    = ([call_convert_removed_options ∅; render_failure_message "rejected"],
       inr tt)
  ∧ trace (MsiRepoUpdateCommand_run (N := example_names)
             (C := rejecting_entries_convention) (S := accepting_server)
             example_kwargs)
    = [call_convert_removed_options ∅;
       LOG_debug "Importer configuration options"; LOG_debug_config ∅;
       call_convert_removed_options
         {[ "relative_url" := PyNone; "http" := PyBool true;
            "https" := PyNone; "checksum_type" := PyNone; "skip" := PyNone ]};
       render_failure_message "rejected"].
Proof.
  split; [|split].
  - refine (proj1 (proj1 (invalid_config_is_reported_without_remote_call
              (N := example_names) (C := rejecting_convention)
              (S := accepting_server))
            example_kwargs (PyStr "win1") PyNone PyNone
            (PyDict {[ "_repo-type" := PyStr "win-repo" ]})
            {[ "serve-http" := PyBool true ]} "rejected" _ _));
      vm_compute; reflexivity.
  - refine (proj1 (proj2 (invalid_config_is_reported_without_remote_call
              (N := example_names) (C := rejecting_convention)
              (S := accepting_server)))
            example_kwargs (PyStr "win1") PyNone PyNone PyNone
            {[ "serve-http" := PyBool true ]} "rejected" _ _);
      vm_compute; reflexivity.
  - refine (f_equal fst (proj1 (proj2 (proj2
              (invalid_config_is_reported_without_remote_call
                 (N := example_names) (C := rejecting_entries_convention)
                 (S := accepting_server)))
            example_kwargs (PyStr "win1") PyNone PyNone PyNone
            {[ "serve-http" := PyBool true ]}
            {[ "serve_http" := PyBool true ]} ∅ "rejected" _ _ _)));
      vm_compute; reflexivity.
Defined.

Section CreateCalls.
Context {N : Names} {C : RemovalConvention} {S : Server}.

(** A call of [create_and_configure] in the trace of create is the one
    after the [try] block. *)
Lemma create_call_inv kwargs repo_id display_name description notes
    importer_type importer_config distributors :
  call_create_and_configure repo_id display_name description notes
      importer_type importer_config distributors
    ∈ trace (MsiRepoCreateCommand_run kwargs) →
  ∃ kw win_distributor_config,
    outcome (create_gather_data kwargs)
      = inr (repo_id, description, display_name, notes, kw)
    ∧ outcome (create_build_configs kw)
      = inr (importer_config, win_distributor_config)
    ∧ importer_type = TYPE_ID_IMPORTER_WIN
    ∧ distributors
      = [win_descriptor (create_defaults repo_id win_distributor_config)].
Proof.
  intros Hin.
  destruct (outcome (create_gather_data kwargs))
    as [e|[[[[rid desc] dn] nt] kw]] eqn:Hg.
  { rewrite (create_run_gather_fails _ _ Hg) in Hin. by apply elem_of_nil in Hin. }
  rewrite (create_run_unfold _ _ _ _ _ _ Hg) in Hin.
  pose proof (create_build_configs_trace kw) as Hno.
  rewrite Forall_forall in Hno.
  destruct (outcome (create_build_configs kw)) as [e|[ic dc]] eqn:Hb.
  - assert (call_create_and_configure repo_id display_name description notes
              importer_type importer_config distributors
            ∈ (trace (create_build_configs kw)
               ++ [render_failure_message ""])%list) as Hin'.
    { destruct e; simpl in Hin; apply elem_of_app; try (by left).
      apply elem_of_app in Hin as [Hin|Hin]; [by left|].
      apply list_elem_of_singleton in Hin. done. }
    apply elem_of_app in Hin' as [Hin'|Hin'].
    + by apply Hno in Hin'.
    + by apply list_elem_of_singleton in Hin'.
  - simpl in Hin. apply elem_of_app in Hin as [Hin|Hin].
    { by apply Hno in Hin. }
    apply elem_of_cons in Hin as [Heq|Hin].
    + injection Heq as -> -> -> -> -> -> ->. by eexists _, _.
    + destruct (create_and_configure _ _ _ _ _ _ _).
      * by apply elem_of_nil in Hin.
      * by apply list_elem_of_singleton in Hin.
Qed.

(** C8. The notes of every remote create call map the reserved type key
    to the marker of this family: absent (falsy) notes are replaced by an
    empty dictionary before the marker is written, and the marker
    replaces whatever the caller had stored under the type key. *)
Theorem create_notes_carry_the_type_marker kwargs repo_id display_name
    description notes importer_type importer_config distributors :
  call_create_and_configure repo_id display_name description notes
      importer_type importer_config distributors
    ∈ trace (MsiRepoCreateCommand_run kwargs) →
  ∃ v d,
    kwargs !! OPTION_NOTES_keyword = Some v
    ∧ notes = PyDict d
    ∧ d !! REPO_NOTE_TYPE_KEY = Some (PyStr REPO_NOTE_WIN)
    ∧ (truthy v = false → d = {[REPO_NOTE_TYPE_KEY := PyStr REPO_NOTE_WIN]})
    ∧ (∀ d0, v = PyDict d0 → d0 ≠ ∅ →
         d = <[REPO_NOTE_TYPE_KEY := PyStr REPO_NOTE_WIN]> d0).
Proof.
  intros (kw & dc & Hg & _)%create_call_inv.
  apply create_gather_data_inv in Hg as (_ & _ & v & d & Hv & Ht & ->).
  exists v, d. split; [done|]. split; [done|].
  unfold tagged_notes in Ht. destruct (truthy v) eqn:Htr.
  - destruct v as [| |s|d0]; try done. injection Ht as <-.
    split; [apply lookup_insert_eq|]. split; [done|].
    by intros ? [= <-] _.
  - injection Ht as <-. split; [apply lookup_singleton_eq|]. split; [done|].
    intros d0 -> Hne. simpl in Htr. apply negb_false_iff in Htr.
    by apply bool_decide_eq_true in Htr.
Qed.
End CreateCalls.

Section UpdateCalls.
Context {N : Names} {C : RemovalConvention} {S : Server}.

(** A call of [update_repo_and_plugins] in the trace of update is the one
    after the two [try] blocks. *)
Lemma update_call_inv kwargs repo_id display_name description notes
    importer_config distributor_configs :
  call_update_repo_and_plugins repo_id display_name description notes
      importer_config distributor_configs
    ∈ trace (MsiRepoUpdateCommand_run kwargs) →
  ∃ kw kw1 kw2 win_distributor_config,
    outcome (update_gather_data kwargs)
      = inr (repo_id, description, display_name, notes, kw)
    ∧ outcome (args_to_importer_config kw) = inr (kw1, importer_config)
    ∧ outcome (args_to_win_distributor_config kw1)
      = inr (kw2, win_distributor_config)
    ∧ distributor_configs
      = {[TYPE_ID_DISTRIBUTOR_WIN := win_distributor_config]}.
Proof.
  intros Hin.
  destruct (outcome (update_gather_data kwargs))
    as [e|[[[[rid desc] dn] nt] kw]] eqn:Hg.
  { rewrite (update_run_gather_fails _ _ Hg) in Hin. by apply elem_of_nil in Hin. }
  rewrite (update_run_unfold _ _ _ _ _ _ Hg) in Hin. simpl in Hin.
  pose proof (args_to_importer_config_trace kw) as Hno.
  rewrite Forall_forall in Hno.
  destruct (outcome (args_to_importer_config kw)) as [e|[kw1 ic]] eqn:Hi.
  { destruct e; simpl in Hin;
      try (apply elem_of_app in Hin as [Hin|Hin];
           [|by apply list_elem_of_singleton in Hin]);
      by apply Hno in Hin. }
  pose proof (args_to_win_distributor_config_trace kw1) as Hno'.
  rewrite Forall_forall in Hno'.
  destruct (outcome (args_to_win_distributor_config kw1)) as [e|[kw2 dc]] eqn:Hd.
  { destruct e; simpl in Hin;
      (apply elem_of_app in Hin as [Hin|Hin]; [by apply Hno in Hin|]);
      try (apply elem_of_app in Hin as [Hin|Hin];
           [|by apply list_elem_of_singleton in Hin]);
      by apply Hno' in Hin. }
  simpl in Hin.
  apply elem_of_app in Hin as [Hin|Hin]; [by apply Hno in Hin|].
  apply elem_of_app in Hin as [Hin|Hin]; [by apply Hno' in Hin|].
  apply elem_of_cons in Hin as [Heq|Hin].
  - injection Heq as -> -> -> -> -> ->. by eexists _, _, _, _.
  - destruct (update_repo_and_plugins _ _ _ _ _ _) as [e|response].
    + by apply elem_of_nil in Hin.
    + destruct (is_async response); simpl in Hin.
      * apply elem_of_cons in Hin as [?|Hin]; [done|].
        by apply list_elem_of_singleton in Hin.
      * by apply list_elem_of_singleton in Hin.
Qed.
End UpdateCalls.

Section Documented.
Context {N : Names} {S : Server}.

(** C1, as amended.  Under the documented removal convention the builder
    returns for every argument dictionary and every key table; the result
    has no key outside the plugin keys of the table; and for a table that
    renames cleanly (both tables of this module do) the entry of a plugin
    key is decided by the argument under its CLI key after the hyphen
    loop: no entry when the argument is missing or [None], an explicit
    [None] when it is the empty string, the argument itself otherwise. *)
Theorem prep_config_keys_and_entries (kwargs : gmap string pyval)
    (plugin_config_keys : list (string * string)) :
  ∃ kwargs' config,
    outcome (_prep_config (C := documented_convention) kwargs
               plugin_config_keys) = inr (kwargs', config)
    ∧ translate_keys (dict_keys kwargs) kwargs = inr kwargs'
    ∧ (∀ k, is_Some (config !! k) → k ∈ plugin_config_keys.*1)
    ∧ (renames_cleanly plugin_config_keys →
       ∀ plugin_key cli_key,
         (plugin_key, cli_key) ∈ plugin_config_keys →
         config !! plugin_key
         = strip_or_clear (argument kwargs' cli_key)).
Proof.
  destruct (hyphen_loop_total kwargs) as [kwargs' Hrun].
  exists kwargs', (built_config plugin_config_keys kwargs').
  rewrite (prep_config_documented _ kwargs') by done.
  split; [done|]. split; [done|]. split.
  - apply built_config_closure.
  - intros Hok pk ck Hin. by apply built_config_lookup.
Qed.

(** C10. The importer key table is empty, so under the documented removal
    convention [args_to_importer_config] returns the empty configuration
    for every argument dictionary, and every remote create call carries
    an empty importer configuration. *)
Theorem importer_config_is_always_empty :
  (∀ kwargs, ∃ kwargs',
     outcome (args_to_importer_config (C := documented_convention) kwargs)
       = inr (kwargs', ∅))
  ∧ (∀ kwargs repo_id display_name description notes importer_type
       importer_config distributors,
       call_create_and_configure repo_id display_name description notes
           importer_type importer_config distributors
         ∈ trace (MsiRepoCreateCommand_run (C := documented_convention)
                    kwargs) →
       importer_config = ∅).
Proof.
  split.
  - intros kwargs. destruct (hyphen_loop_total kwargs) as [kwargs' Hrun].
    exists kwargs'. by rewrite (args_to_importer_config_documented _ kwargs').
  - intros kwargs repo_id display_name description notes importer_type
      importer_config distributors (kw & dc & _ & Hb & _)%create_call_inv.
    destruct (hyphen_loop_total kw) as [kw' Hrun].
    rewrite (create_build_configs_documented _ kw') in Hb by done.
    by injection Hb as <- _.
Qed.
End Documented.

Section DocumentedCommands.
Context {N : Names} {S : Server}.

Lemma plugin_arguments_lookup kwargs k v :
  plugin_arguments kwargs !! k = Some v → kwargs !! k = Some v.
Proof.
  unfold plugin_arguments. intros H.
  by do 4 apply lookup_delete_Some in H as [_ H].
Qed.

(** C2. The distributor configuration of a remote create call is the
    built configuration with the defaults of create: [relative_url] is the
    repository id unless the built configuration has an entry for it;
    with neither an [http] nor an [https] entry, [https] is true and
    [http] false; a flag that is still missing is false; so both flags
    are always there.  In terms of the arguments: with neither flag given
    the call has [https] true and [http] false, and with only
    [serve_http] given as true it has [http] true and [https] false. *)
Theorem create_fills_in_distributor_defaults kwargs repo_id display_name
    description notes importer_type importer_config distributors :
  call_create_and_configure repo_id display_name description notes
      importer_type importer_config distributors
    ∈ trace (MsiRepoCreateCommand_run (C := documented_convention) kwargs) →
  ∃ kwargs' built config,
    outcome (args_to_win_distributor_config (C := documented_convention)
               (plugin_arguments kwargs))
      = inr (kwargs', built)
    ∧ distributors = [win_descriptor config]
    ∧ config !! "relative_url"
      = Some (default repo_id (built !! "relative_url"))
    ∧ (built !! "http" = None → built !! "https" = None →
       config !! "https" = Some (PyBool true)
       ∧ config !! "http" = Some (PyBool false))
    ∧ config !! "http" = Some (default (PyBool false) (built !! "http"))
    ∧ (is_Some (built !! "http") →
       config !! "https" = Some (default (PyBool false) (built !! "https")))
    ∧ (∀ v, built !! "https" = Some v → config !! "https" = Some v)
    ∧ is_Some (config !! "http") ∧ is_Some (config !! "https")
    ∧ (argument kwargs' "serve_http" = PyNone →
       argument kwargs' "serve_https" = PyNone →
       config !! "https" = Some (PyBool true)
       ∧ config !! "http" = Some (PyBool false))
    ∧ (argument kwargs' "serve_http" = PyBool true →
       argument kwargs' "serve_https" = PyNone →
       config !! "http" = Some (PyBool true)
       ∧ config !! "https" = Some (PyBool false)).
Proof.
  intros (kw & dc & Hg & Hb & _ & ->)%create_call_inv.
  apply create_gather_data_inv in Hg as (_ & -> & _).
  destruct (hyphen_loop_total (plugin_arguments kwargs)) as [kw' Hrun].
  rewrite (create_build_configs_documented _ kw') in Hb by done.
  injection Hb as _ <-.
  set (built := built_config WIN_DISTRIBUTOR_CONFIG_KEYS kw').
  exists kw', built, (create_defaults repo_id built).
  rewrite (args_to_win_distributor_config_documented _ kw') by done.
  assert (built !! "http" = strip_or_clear (argument kw' "serve_http")) as Hhttp.
  { apply built_config_lookup; [apply WIN_DISTRIBUTOR_CONFIG_KEYS_clean|].
    unfold WIN_DISTRIBUTOR_CONFIG_KEYS. set_solver. }
  assert (built !! "https" = strip_or_clear (argument kw' "serve_https")) as Hhttps.
  { apply built_config_lookup; [apply WIN_DISTRIBUTOR_CONFIG_KEYS_clean|].
    unfold WIN_DISTRIBUTOR_CONFIG_KEYS. set_solver. }
  rewrite create_defaults_relative_url, create_defaults_http,
    create_defaults_https.
  split; [done|]. split; [done|]. split; [done|]. split.
  { intros Hh Hs. by rewrite Hs, Hh, (dict_contains_false _ _ Hh). }
  split; [done|]. split.
  { intros [h Hh]. by rewrite (dict_contains_true _ _ _ Hh). }
  split. { by intros v ->. }
  split; [by eexists|]. split; [by eexists|]. split.
  - intros Ha Hb. rewrite Ha in Hhttp. rewrite Hb in Hhttps.
    by rewrite Hhttps, Hhttp, (dict_contains_false _ _ Hhttp).
  - intros Ha Hb. rewrite Ha in Hhttp. rewrite Hb in Hhttps.
    by rewrite Hhttps, Hhttp, (dict_contains_true _ _ _ Hhttp).
Qed.

(** C7. A remote update call gets [None] for the notes when no notes
    argument was given, an empty importer configuration, and for the
    distributor the built configuration as it is: every entry of it comes
    from an argument of the caller that is not [None], whose key, with
    hyphens turned into underscores, is the CLI key of the entry. *)
Theorem update_passes_only_what_was_supplied kwargs repo_id display_name
    description notes importer_config distributor_configs :
  call_update_repo_and_plugins repo_id display_name description notes
      importer_config distributor_configs
    ∈ trace (MsiRepoUpdateCommand_run (C := documented_convention) kwargs) →
  (argument kwargs OPTION_NOTES_keyword = PyNone → notes = PyNone)
  ∧ importer_config = ∅
  ∧ ∃ kwargs' built,
      outcome (args_to_win_distributor_config (C := documented_convention)
                 (plugin_arguments kwargs))
        = inr (kwargs', built)
      ∧ distributor_configs = {[TYPE_ID_DISTRIBUTOR_WIN := built]}
      ∧ ∀ plugin_key v,
          built !! plugin_key = Some v →
          ∃ cli_key k v0,
            (plugin_key, cli_key) ∈ WIN_DISTRIBUTOR_CONFIG_KEYS
            ∧ str_replace "-" "_" k = cli_key
            ∧ kwargs !! k = Some v0
            ∧ v0 ≠ PyNone
            ∧ v = (if eq_str v0 "" then PyNone else v0).
Proof.
  intros (kw & kw1 & kw2 & dc & Hg & Hi & Hd & ->)%update_call_inv.
  apply update_gather_data_inv in Hg as (_ & -> & ->).
  destruct (hyphen_loop_total (plugin_arguments kwargs)) as [kw' Hrun].
  rewrite (args_to_importer_config_documented _ kw') in Hi by done.
  injection Hi as <- <-.
  rewrite (args_to_win_distributor_config_documented _ kw') in Hd
    by (by eapply hyphen_loop_idem).
  injection Hd as _ <-.
  split.
  { unfold argument. intros Hn.
    match goal with |- default PyNone ?o = PyNone =>
      destruct o as [v|] eqn:Hv end; [|done].
    do 3 apply lookup_delete_Some in Hv as [_ Hv]. by rewrite Hv in Hn. }
  split; [done|].
  exists kw', (built_config WIN_DISTRIBUTOR_CONFIG_KEYS kw').
  rewrite (args_to_win_distributor_config_documented _ kw') by done.
  split; [done|]. split; [done|].
  intros pk v Hv.
  assert (pk ∈ WIN_DISTRIBUTOR_CONFIG_KEYS.*1) as Hpk.
  { apply (built_config_closure _ kw'). by eexists. }
  apply list_elem_of_fmap in Hpk as ([pk' ck] & -> & Hin). simpl in Hv.
  rewrite (built_config_lookup _ _ pk' ck) in Hv
    by (done || apply WIN_DISTRIBUTOR_CONFIG_KEYS_clean).
  unfold argument in Hv.
  destruct (kw' !! ck) as [v0|] eqn:Hv0; [|done].
  destruct (hyphen_loop_origin _ _ _ _ Hrun Hv0) as (k & Hk & Hl).
  apply plugin_arguments_lookup in Hl.
  exists ck, k, v0. split; [done|]. split; [done|]. split; [done|].
  unfold strip_or_clear in Hv. simpl in Hv.
  destruct v0 as [|b|s|d]; simpl in *; try done; try (by injection Hv as <-).
  split; [done|]. destruct (String.eqb s ""); by injection Hv as <-.
Qed.
End DocumentedCommands.

(** C1, counterexample: with no argument given, the distributor
    configuration has no entry at all, so not every plugin key is there. *)
Lemma unsupplied_arguments_leave_no_entry :
  ¬ closed_and_exhaustive ∅ WIN_DISTRIBUTOR_CONFIG_KEYS.
Proof.
  intros (kwargs' & config & Hout & _ & Hall & _).
  vm_compute in Hout. injection Hout as _ <-.
  destruct (Hall "relative_url") as [v Hv]; [by left|]. done.
Qed.

(** C5: [args_to_win_distributor_config] called with the arguments
    [{'relative-url': 'x'}] leaves the caller's dictionary as
    [{'relative_url': 'x'}]. *)
Theorem args_to_win_distributor_config_edits_the_arguments :
  outcome (args_to_win_distributor_config (C := documented_convention)
             {[ "relative-url" := PyStr "x" ]})
    = inr ({[ "relative_url" := PyStr "x" ]},
           {[ "relative_url" := PyStr "x" ]})
  ∧ ({[ "relative_url" := PyStr "x" ]} : gmap string pyval)
    ≠ {[ "relative-url" := PyStr "x" ]}.
Proof.
  split; [vm_compute; reflexivity|].
  intros Heq. apply (f_equal (λ m : gmap string pyval, m !! "relative_url")) in Heq.
  by vm_compute in Heq.
Qed.

Section Witnesses.
#[local] Existing Instance example_names.
#[local] Existing Instance accepting_server.

Lemma prep_config_keys_and_entries_witness :
  ∃ kwargs' config,
    outcome (_prep_config
               {[ "serve-http" := PyBool true; "skip" := PyStr "" ]}
               WIN_DISTRIBUTOR_CONFIG_KEYS) = inr (kwargs', config)
    ∧ config !! "http" = Some (PyBool true)
    ∧ config !! "skip" = Some PyNone
    ∧ config !! "relative_url" = None.
Proof.
  destruct (prep_config_keys_and_entries
              {[ "serve-http" := PyBool true; "skip" := PyStr "" ]}
              WIN_DISTRIBUTOR_CONFIG_KEYS)
    as (kwargs' & config & Hout & Hloop & _ & Hentries).
  exists kwargs', config. split; [exact Hout|].
  assert (translate_keys
            (dict_keys {[ "serve-http" := PyBool true; "skip" := PyStr "" ]})
            {[ "serve-http" := PyBool true; "skip" := PyStr "" ]}
          = inr {[ "serve_http" := PyBool true; "skip" := PyStr "" ]}) as Hk
    by (vm_compute; reflexivity).
  rewrite Hk in Hloop. injection Hloop as <-.
  assert (renames_cleanly WIN_DISTRIBUTOR_CONFIG_KEYS) as Hok.
  { apply (bool_decide_unpack _). vm_compute. exact I. }
  rewrite (Hentries Hok "http" "serve_http") by in_trace.
  rewrite (Hentries Hok "skip" "skip") by in_trace.
  rewrite (Hentries Hok "relative_url" "relative_url") by in_trace.
  vm_compute. repeat split.
Defined.

Lemma create_notes_carry_the_type_marker_witness :
  ∃ v d,
    example_kwargs !! OPTION_NOTES_keyword = Some v
    ∧ PyDict {[ REPO_NOTE_TYPE_KEY := PyStr REPO_NOTE_WIN ]} = PyDict d
    ∧ d !! REPO_NOTE_TYPE_KEY = Some (PyStr REPO_NOTE_WIN)
    ∧ (truthy v = false → d = {[ REPO_NOTE_TYPE_KEY := PyStr REPO_NOTE_WIN ]})
    ∧ (∀ d0, v = PyDict d0 → d0 ≠ ∅ →
         d = <[ REPO_NOTE_TYPE_KEY := PyStr REPO_NOTE_WIN ]> d0).
Proof.
  apply (create_notes_carry_the_type_marker example_kwargs (PyStr "win1")
           PyNone PyNone
           (PyDict {[ REPO_NOTE_TYPE_KEY := PyStr REPO_NOTE_WIN ]})
           TYPE_ID_IMPORTER_WIN ∅ [example_descriptor]).
  in_trace.
Defined.

Lemma importer_config_is_always_empty_witness :
  (∅ : gmap string pyval) = ∅.
Proof.
  apply (proj2 importer_config_is_always_empty example_kwargs (PyStr "win1")
           PyNone PyNone
           (PyDict {[ REPO_NOTE_TYPE_KEY := PyStr REPO_NOTE_WIN ]})
           TYPE_ID_IMPORTER_WIN ∅ [example_descriptor]).
  in_trace.
Defined.

Lemma create_fills_in_distributor_defaults_witness :
  ∃ kwargs' built config,
    outcome (args_to_win_distributor_config (plugin_arguments example_kwargs))
      = inr (kwargs', built)
    ∧ [example_descriptor] = [win_descriptor config]
    ∧ config !! "http" = Some (PyBool true)
    ∧ config !! "https" = Some (PyBool false).
Proof.
  destruct (create_fills_in_distributor_defaults example_kwargs
              (PyStr "win1") PyNone PyNone
              (PyDict {[ REPO_NOTE_TYPE_KEY := PyStr REPO_NOTE_WIN ]})
              TYPE_ID_IMPORTER_WIN ∅ [example_descriptor])
    as (kwargs' & built & config & Hout & Hds & _ & _ & _ & _ & _ & _ & _
        & _ & Honly).
  { in_trace. }
  exists kwargs', built, config. split; [exact Hout|]. split; [exact Hds|].
  assert (outcome (args_to_win_distributor_config
                     (plugin_arguments example_kwargs))
          = inr ({[ "serve_http" := PyBool true ]},
                 {[ "http" := PyBool true ]})) as Hk
    by (vm_compute; reflexivity).
  rewrite Hk in Hout. injection Hout as <- _.
  apply Honly; vm_compute; reflexivity.
Defined.

(** Create for the repository [win1] with no flag given: the remote call
    gets the repository id as relative URL, [https] true and [http]
    false, and notes that carry the type marker. *)
Example create_with_no_flag_given :
  trace (MsiRepoCreateCommand_run (C := documented_convention)
           {[ "repo-id" := PyStr "win1"; "note" := PyNone;
              "relative-url" := PyNone; "serve-http" := PyNone;
              "serve-https" := PyNone; "checksum-type" := PyNone;
              "skip" := PyNone ]})
  = [ call_convert_removed_options ∅;
      LOG_debug "Importer configuration options";
      LOG_debug_config ∅;
      call_convert_removed_options
        {[ "relative_url" := PyNone; "http" := PyNone; "https" := PyNone;
           "checksum_type" := PyNone; "skip" := PyNone ]};
      LOG_debug "Distributor configuration options";
      LOG_debug_config ∅;
      call_create_and_configure (PyStr "win1") PyNone PyNone
        (PyDict {[ "_repo-type" := PyStr "win-repo" ]}) "win_importer" ∅
        [ {| distributor_type := "win_distributor";
             distributor_config :=
               {[ "relative_url" := PyStr "win1"; "https" := PyBool true;
                  "http" := PyBool false ]};
             auto_publish := true;
             distributor_id := "win_distributor" |} ];
      render_success_message (Successfully_created_repository (PyStr "win1")) ].
Proof. vm_compute. reflexivity. Qed.

Lemma update_passes_only_what_was_supplied_witness :
  ∃ kwargs' built,
    outcome (args_to_win_distributor_config (plugin_arguments example_kwargs))
      = inr (kwargs', built)
    ∧ ({[ TYPE_ID_DISTRIBUTOR_WIN := {[ "http" := PyBool true ]} ]}
         : gmap string (gmap string pyval))
      = {[ TYPE_ID_DISTRIBUTOR_WIN := built ]}.
Proof.
  destruct (update_passes_only_what_was_supplied example_kwargs
              (PyStr "win1") PyNone PyNone PyNone ∅
              {[ TYPE_ID_DISTRIBUTOR_WIN := {[ "http" := PyBool true ]} ]})
    as (_ & _ & kwargs' & built & Hout & Hcfg & _).
  { in_trace. }
  exists kwargs', built. split; [exact Hout|exact Hcfg].
Defined.
End Witnesses.

(** ** The list command *)

(** *** Pruning and the tests on the type note *)

Section ListLemmas.
Context {N : Names} {R : ListingServer}.

Lemma set_store_same st : set_store st (store st) = st.
Proof. by destruct st. Qed.

Lemma has_lacks (x : RepositoryRecord) : lacks_win_note x = negb (has_win_note x).
Proof.
  unfold lacks_win_note, has_win_note.
  by destruct (r_notes x !! REPO_NOTE_TYPE_KEY).
Qed.

Lemma prune_distributors_notes x : r_notes (prune_distributors x) = r_notes x.
Proof. unfold prune_distributors. by destruct (r_distributors x). Qed.

Lemma prune_distributors_importers x :
  r_importers (prune_distributors x) = r_importers x.
Proof. unfold prune_distributors. by destruct (r_distributors x). Qed.

Lemma prune_distributors_id x : r_id (prune_distributors x) = r_id x.
Proof. unfold prune_distributors. by destruct (r_distributors x). Qed.

Lemma prune_distributors_distributors x :
  r_distributors (prune_distributors x)
  = filter (λ d, d_id d = WIN_DISTRIBUTOR_ID) <$> r_distributors x.
Proof.
  unfold prune_distributors. destruct (r_distributors x) as [ds|] eqn:Hd;
    [|by rewrite Hd].
  simpl. f_equal. apply list_filter_iff. intros d. apply String.eqb_eq.
Qed.

Lemma prune_distributors_idem x :
  prune_distributors (prune_distributors x) = prune_distributors x.
Proof.
  unfold prune_distributors. destruct (r_distributors x) as [ds|] eqn:Hd; simpl.
  - f_equal. f_equal. apply list_filter_filter_l. done.
  - by rewrite Hd.
Qed.

Lemma prune_all_length s l : length (prune_all s l) = length s.
Proof.
  unfold prune_all. revert s. induction l as [|r l IH]; intros s; [done|].
  simpl. by rewrite IH, length_alter.
Qed.

Lemma prune_all_lookup s l r :
  prune_all s l !! r
  = if decide (r ∈ l) then prune_distributors <$> s !! r else s !! r.
Proof.
  unfold prune_all. revert s. induction l as [|r0 l IH]; intros s.
  - by rewrite decide_False by apply not_elem_of_nil.
  - cbn [fold_left]. rewrite IH.
    destruct (decide (r0 = r)) as [->|Hne].
    + rewrite list_lookup_alter_eq. rewrite (decide_True (P := r ∈ r :: l)) by (by left).
      case_decide; [|done].
      destruct (s !! r); simpl; [|done]. by rewrite prune_distributors_idem.
    + rewrite list_lookup_alter_ne by done.
      case_decide as Hin.
      * by rewrite decide_True by (by right).
      * rewrite decide_False; [done|]. by intros [?|?]%elem_of_cons.
Qed.

Lemma win_at_prune_all s l r : win_at (prune_all s l) r = win_at s r.
Proof.
  unfold win_at, test_at. rewrite prune_all_lookup. case_decide; [|done].
  destruct (s !! r); simpl; [|done].
  unfold has_win_note. by rewrite prune_distributors_notes.
Qed.

Lemma other_at_win_at s r :
  is_Some (s !! r) → other_at s r = negb (win_at s r).
Proof.
  intros [x Hx]. unfold other_at, win_at, test_at. rewrite Hx. apply has_lacks.
Qed.

Lemma other_at_prune_all s l r : other_at (prune_all s l) r = other_at s r.
Proof.
  unfold other_at, test_at. rewrite prune_all_lookup. case_decide; [|done].
  destruct (s !! r); simpl; [|done].
  unfold lacks_win_note. by rewrite prune_distributors_notes.
Qed.

Lemma valid_ref_prune_all s l r : valid_ref (prune_all s l) r = valid_ref s r.
Proof.
  unfold valid_ref. rewrite prune_all_lookup. case_decide; [|done].
  by destruct (s !! r).
Qed.

Lemma valid_ref_Some s r : valid_ref s r = true ↔ is_Some (s !! r).
Proof.
  unfold valid_ref. destruct (s !! r); split; try done; by intros [? ?].
Qed.

Lemma importers_ok_prune_all s l r :
  importers_ok (prune_all s l) r = importers_ok s r.
Proof.
  unfold importers_ok. rewrite prune_all_lookup. case_decide; [|done].
  destruct (s !! r); simpl; [|done]. by rewrite prune_distributors_importers.
Qed.

(** *** The loops of the list command *)

Lemma forallb_pointwise {A} (f g : A → bool) (l : list A) :
  (∀ x, f x = g x) → forallb f l = forallb g l.
Proof. intros H. induction l as [|x l IH]; simpl; [done|]. by rewrite H, IH. Qed.

Lemma deref_Some st r x : store st !! r = Some x → deref r st = (st, inr x).
Proof. intros H. unfold deref. by rewrite H. Qed.

Lemma collect_spec test refs acc st :
  collect test refs acc st
  = (st, if forallb (valid_ref (store st)) refs
         then inr (acc ++ filter (λ r, test_at test (store st) r = true) refs)%list
         else inl DanglingReference).
Proof.
  revert acc. induction refs as [|r refs IH]; intros acc; simpl.
  - by rewrite app_nil_r.
  - unfold lbind, deref, valid_ref at 1. destruct (store st !! r) as [x|] eqn:Hx; simpl; [|done].
    rewrite IH. destruct (forallb _ refs); [|done].
    do 2 f_equal. rewrite filter_cons.
    assert (test_at test (store st) r = test x) as Ht
      by (unfold test_at; by rewrite Hx).
    destruct (test x).
    + rewrite decide_True by done. by rewrite <- app_assoc.
    + rewrite decide_False; [done|]. by rewrite Ht.
Qed.

Lemma for_each_prune l st :
  forallb (valid_ref (store st)) l = true →
  for_each l (λ r,
    lbind (deref r) (λ x,
      match r_distributors x with
      | Some _ => assign r (prune_distributors x)
      | None => lret tt
      end)) st
  = (set_store st (prune_all (store st) l), inr tt).
Proof.
  revert st. induction l as [|r l IH]; intros st Hv; simpl.
  - by rewrite set_store_same.
  - simpl in Hv. apply andb_true_iff in Hv as [Hr Hv].
    apply valid_ref_Some in Hr as [x Hx].
    unfold lbind at 1 2, deref. rewrite Hx.
    assert (alter prune_distributors r (store st)
            = match r_distributors x with
              | Some _ => <[r := prune_distributors x]> (store st)
              | None => store st
              end) as Halt.
    { apply list_eq. intros i. destruct (decide (r = i)) as [<-|Hne].
      - rewrite list_lookup_alter_eq, Hx. simpl.
        unfold prune_distributors at 1.
        destruct (r_distributors x) eqn:Hd; [|done].
        rewrite list_lookup_insert_eq by (by eapply lookup_lt_Some).
        unfold prune_distributors. by rewrite Hd.
      - rewrite list_lookup_alter_ne by done.
        destruct (r_distributors x); [|done].
        by rewrite list_lookup_insert_ne. }
    assert (∀ st1, store st1 = alter prune_distributors r (store st) →
              all_repos_cache st1 = all_repos_cache st →
              listing_calls st1 = listing_calls st →
              for_each l (λ r,
                lbind (deref r) (λ x,
                  match r_distributors x with
                  | Some _ => assign r (prune_distributors x)
                  | None => lret tt
                  end)) st1
              = (set_store st (prune_all (store st) (r :: l)), inr tt)) as Hnext.
    { intros st1 Hs Hc Hl. rewrite IH.
      - unfold set_store. by rewrite Hs, Hc, Hl.
      - rewrite Hs. rewrite <- Hv. apply forallb_pointwise. intros i.
        apply (valid_ref_prune_all _ [r]). }
    destruct (r_distributors x) eqn:Hd.
    + unfold assign. apply Hnext; simpl; by rewrite ?Halt.
    + unfold lret. apply Hnext; by rewrite ?Halt.
Qed.

Lemma for_each_check l st :
  forallb (valid_ref (store st)) l = true →
  for_each l (λ r,
    lbind (deref r) (λ x,
      match r_importers x with
      | None => lret tt
      | Some importers =>
          match importers with
          | importer :: _ => let imp_config := i_config importer in lret tt
          | [] => lraise IndexError
          end
      end)) st
  = (st, if forallb (importers_ok (store st)) l then inr tt else inl IndexError).
Proof.
  set (body := λ r, lbind (deref r) _).
  induction l as [|r l IH]; intros Hv; [done|].
  simpl in Hv. apply andb_true_iff in Hv as [Hr Hv].
  apply valid_ref_Some in Hr as [x Hx].
  change (for_each (r :: l) body st)
    with (lbind (body r) (λ _, for_each l body) st).
  assert (body r st
          = (st, if importers_ok (store st) r then inr tt else inl IndexError))
    as Hbody.
  { unfold body, lbind, deref, importers_ok. rewrite Hx.
    by destruct (r_importers x) as [[|i imps]|]. }
  unfold lbind at 1. rewrite Hbody. cbn [forallb].
  destruct (importers_ok (store st) r); [|done]. simpl. by apply IH.
Qed.
Lemma lbind_value {A B} (m : L A) (k : A → L B) st st' a :
  m st = (st', inr a) → lbind m k st = k a st'.
Proof. intros H. unfold lbind. by rewrite H. Qed.

Lemma lbind_raise {A B} (m : L A) (k : A → L B) st st' e :
  m st = (st', inl e) → lbind m k st = (st', inl e).
Proof. intros H. unfold lbind. by rewrite H. Qed.

Lemma forallb_filter_weaken {A} (f : A → bool) (P : A → Prop)
    `{!∀ x, Decision (P x)} (l : list A) :
  forallb f l = true → forallb f (filter P l) = true.
Proof.
  induction l as [|x l IH]; simpl; [done|].
  intros [Hx Hl]%andb_true_iff. rewrite filter_cons.
  case_decide; simpl; [rewrite Hx|]; by apply IH.
Qed.

(** *** The methods *)

Lemma all_repos_cached query_params st refs :
  all_repos_cache st = Some refs → _all_repos query_params st = (st, inr refs).
Proof. intros H. unfold _all_repos. by rewrite H. Qed.

Lemma all_repos_fetched query_params st :
  all_repos_cache st = None →
  _all_repos query_params st
  = match repositories (length (listing_calls st)) query_params with
    | inr response_body =>
        let refs := seq (length (store st)) (length response_body) in
        ({| all_repos_cache := Some refs;
            store := (store st ++ response_body)%list;
            listing_calls := (listing_calls st ++ [query_params])%list |},
         inr refs)
    | inl e =>
        ({| all_repos_cache := None;
            store := store st;
            listing_calls := (listing_calls st ++ [query_params])%list |},
         inl e)
    end.
Proof. intros H. unfold _all_repos. by rewrite H. Qed.

Lemma get_repositories_from query_params st st1 refs :
  _all_repos query_params st = (st1, inr refs) →
  get_repositories query_params st
  = if forallb (valid_ref (store st1)) refs
    then
      let msi_repos := filter (λ r, win_at (store st1) r = true) refs in
      let pruned := prune_all (store st1) msi_repos in
      (set_store st1 pruned,
       if forallb (importers_ok pruned) msi_repos
       then inr msi_repos else inl IndexError)
    else (st1, inl DanglingReference).
Proof.
  intros Hall. unfold get_repositories.
  rewrite (lbind_value _ _ _ _ _ Hall).
  pose proof (collect_spec has_win_note refs [] st1) as Hc.
  destruct (forallb (valid_ref (store st1)) refs) eqn:Hv.
  - rewrite (lbind_value _ _ _ _ _ Hc). simpl.
    fold (win_at (N := N)).
    set (msi := filter (λ r, win_at (store st1) r = true) refs).
    assert (forallb (valid_ref (store st1)) msi = true) as Hvm
      by (by apply forallb_filter_weaken).
    rewrite (lbind_value _ _ _ _ _ (for_each_prune msi st1 Hvm)).
    assert (forallb (valid_ref (store (set_store st1 (prune_all (store st1) msi))))
              msi = true) as Hvp.
    { simpl. rewrite <- Hvm. apply forallb_pointwise. intros r.
      apply valid_ref_prune_all. }
    pose proof (for_each_check msi _ Hvp) as Hk. simpl in Hk.
    destruct (forallb (importers_ok (prune_all (store st1) msi)) msi).
    + by rewrite (lbind_value _ _ _ _ _ Hk).
    + by rewrite (lbind_raise _ _ _ _ _ Hk).
  - by rewrite (lbind_raise _ _ _ _ _ Hc).
Qed.

Lemma get_other_repositories_from query_params st st1 refs :
  _all_repos query_params st = (st1, inr refs) →
  get_other_repositories query_params st
  = (st1, if forallb (valid_ref (store st1)) refs
          then inr (filter (λ r, other_at (store st1) r = true) refs)
          else inl DanglingReference).
Proof.
  intros Hall. unfold get_other_repositories.
  rewrite (lbind_value _ _ _ _ _ Hall).
  pose proof (collect_spec lacks_win_note refs [] st1) as Hc.
  destruct (forallb (valid_ref (store st1)) refs) eqn:Hv.
  - by rewrite (lbind_value _ _ _ _ _ Hc).
  - by rewrite (lbind_raise _ _ _ _ _ Hc).
Qed.

Lemma get_repositories_raise query_params st st1 e :
  _all_repos query_params st = (st1, inl e) →
  get_repositories query_params st = (st1, inl e).
Proof. intros H. unfold get_repositories. by rewrite (lbind_raise _ _ _ _ _ H). Qed.

Lemma get_other_repositories_raise query_params st st1 e :
  _all_repos query_params st = (st1, inl e) →
  get_other_repositories query_params st = (st1, inl e).
Proof.
  intros H. unfold get_other_repositories. by rewrite (lbind_raise _ _ _ _ _ H).
Qed.
End ListLemmas.

(** *** What the methods return *)

Section ListClaims.
Context {N : Names} {R : ListingServer}.

Lemma filter_iff_on {A} (P Q : A → Prop) `{!∀ x, Decision (P x)}
    `{!∀ x, Decision (Q x)} (l : list A) :
  (∀ x, x ∈ l → (P x ↔ Q x)) → filter P l = filter Q l.
Proof.
  induction l as [|x l IH]; intros Hpq; [done|].
  rewrite !filter_cons.
  rewrite IH by (intros y Hy; apply Hpq; by right).
  destruct (Hpq x) as [H1 H2]; [by left|].
  destruct (decide (P x)), (decide (Q x)); tauto.
Qed.

Lemma all_repos_cache_after query_params st st1 refs :
  _all_repos query_params st = (st1, inr refs) →
  all_repos_cache st1 = Some refs.
Proof.
  unfold _all_repos. destruct (all_repos_cache st) as [refs0|] eqn:Hc.
  - by intros [= <- <-].
  - destruct (repositories _ _); [done|]. by intros [= <- <-].
Qed.

Lemma get_repositories_inv query_params st st' msi_repos :
  get_repositories query_params st = (st', inr msi_repos) →
  ∃ st1 refs,
    _all_repos query_params st = (st1, inr refs)
    ∧ forallb (valid_ref (store st1)) refs = true
    ∧ msi_repos = filter (λ r, win_at (store st1) r = true) refs
    ∧ st' = set_store st1 (prune_all (store st1) msi_repos)
    ∧ forallb (importers_ok (store st')) msi_repos = true.
Proof.
  intros Hget. destruct (_all_repos query_params st) as [st1 [e|refs]] eqn:Hall.
  { by rewrite (get_repositories_raise _ _ _ _ Hall) in Hget. }
  rewrite (get_repositories_from _ _ _ _ Hall) in Hget.
  destruct (forallb (valid_ref (store st1)) refs) eqn:Hv; [|done].
  simpl in Hget.
  destruct (forallb _ (filter _ refs)) eqn:Hok; [|done].
  injection Hget as <- <-. by eexists _, _.
Qed.

Lemma get_other_repositories_inv query_params st st' others :
  get_other_repositories query_params st = (st', inr others) →
  ∃ refs,
    _all_repos query_params st = (st', inr refs)
    ∧ forallb (valid_ref (store st')) refs = true
    ∧ others = filter (λ r, other_at (store st') r = true) refs.
Proof.
  intros Hget. destruct (_all_repos query_params st) as [st1 [e|refs]] eqn:Hall.
  { by rewrite (get_other_repositories_raise _ _ _ _ Hall) in Hget. }
  rewrite (get_other_repositories_from _ _ _ _ Hall) in Hget.
  destruct (forallb (valid_ref (store st1)) refs) eqn:Hv; [|done].
  injection Hget as <- <-. by eexists.
Qed.

(** C6. Every record that [get_repositories] returns is, in the store
    after the call, the record of the listing with its [distributors]
    reduced to the entries whose id is [WIN_DISTRIBUTOR_ID]; a record
    without [distributors] stays without, and the other fields are
    untouched. *)
Theorem retained_records_keep_only_the_win_distributor
    query_params st st' msi_repos r :
  get_repositories query_params st = (st', inr msi_repos) →
  r ∈ msi_repos →
  ∃ x x',
    store (_all_repos query_params st).1 !! r = Some x
    ∧ store st' !! r = Some x'
    ∧ has_win_note x = true
    ∧ r_distributors x'
      = filter (λ d, d_id d = WIN_DISTRIBUTOR_ID) <$> r_distributors x
    ∧ r_id x' = r_id x
    ∧ r_notes x' = r_notes x
    ∧ r_importers x' = r_importers x.
Proof.
  intros (st1 & refs & Hall & Hv & Hmsi & -> & _)%get_repositories_inv Hr.
  rewrite Hall. simpl.
  assert (win_at (store st1) r = true) as Hwin.
  { rewrite Hmsi in Hr. by apply list_elem_of_filter in Hr as [? _]. }
  unfold win_at, test_at in Hwin.
  destruct (store st1 !! r) as [x|] eqn:Hx; [|done].
  exists x, (prune_distributors x).
  rewrite prune_all_lookup, decide_True, Hx by done.
  rewrite prune_distributors_distributors, prune_distributors_id,
    prune_distributors_notes, prune_distributors_importers.
  done.
Qed.

(** On every listing for which both methods return, their results
    partition the cached references by the type note alone. *)
Lemma listing_is_partitioned query_params1 query_params2 st st1 st2
    msi_repos non_msi_repos :
  get_repositories query_params1 st = (st1, inr msi_repos) →
  get_other_repositories query_params2 st1 = (st2, inr non_msi_repos) →
  ∃ refs,
    all_repos_cache st2 = Some refs
    ∧ msi_repos ++ non_msi_repos ≡ₚ refs
    ∧ (∀ r, r ∈ msi_repos → r ∉ non_msi_repos)
    ∧ (∀ r, r ∈ refs →
         (r ∈ msi_repos ↔ win_at (store st2) r = true)
         ∧ (r ∈ non_msi_repos ↔ win_at (store st2) r = false)).
Proof.
  intros (st0 & refs & Hall & Hv & Hmsi & -> & _)%get_repositories_inv
         (refs' & Hall' & Hv' & Hoth)%get_other_repositories_inv.
  pose proof (all_repos_cache_after _ _ _ _ Hall) as Hc.
  rewrite (all_repos_cached query_params2 _ refs) in Hall' by done.
  injection Hall' as <- <-.
  exists refs. split; [done|]. simpl in *.
  assert (∀ r, r ∈ refs →
            other_at (prune_all (store st0) msi_repos) r
            = negb (win_at (store st0) r)) as Hneg.
  { intros r Hr. rewrite other_at_win_at, win_at_prune_all; [done|].
    apply valid_ref_Some. rewrite forallb_forall in Hv'. apply Hv'.
    by apply list_elem_of_In. }
  assert (non_msi_repos = filter (λ r, ¬ win_at (store st0) r = true) refs)
    as Hoth'.
  { rewrite Hoth. apply filter_iff_on. intros r Hr. rewrite (Hneg r Hr).
    by destruct (win_at (store st0) r). }
  split; [rewrite Hmsi, Hoth'; apply filter_app_complement|].
  split.
  { intros r Hr Hr'. rewrite Hmsi in Hr. rewrite Hoth' in Hr'.
    apply list_elem_of_filter in Hr as [Hw _].
    by apply list_elem_of_filter in Hr' as [Hw' _]. }
  intros r Hr. rewrite win_at_prune_all. rewrite Hoth'. rewrite Hmsi at 1.
  rewrite !list_elem_of_filter.
  destruct (win_at (store st0) r); intuition congruence.
Qed.
End ListClaims.

(** *** One instance, one snapshot *)

Section Snapshot.
Context {N : Names} {R : ListingServer}.

Lemma holds_snapshot_valid st base body :
  holds_snapshot st base body →
  forallb (valid_ref (store st)) (seq base (length body)) = true.
Proof.
  intros (_ & Hlen & _). apply forallb_forall. intros r Hr.
  apply in_seq in Hr. apply valid_ref_Some. apply lookup_lt_is_Some. lia.
Qed.

Lemma holds_snapshot_prune st base body l :
  holds_snapshot st base body →
  holds_snapshot (set_store st (prune_all (store st) l)) base body.
Proof.
  intros (Hc & Hlen & Hrec). split; [done|]. split.
  { simpl. by rewrite prune_all_length. }
  intros i x Hx. destruct (Hrec i x Hx) as (x' & Hx' & Hid & Hn & Hi).
  simpl. rewrite prune_all_lookup, Hx'. case_decide; simpl.
  - eexists. split; [done|]. unfold same_but_distributors.
    by rewrite prune_distributors_id, prune_distributors_notes,
      prune_distributors_importers.
  - by eexists.
Qed.

(** One call on an instance that holds a snapshot. *)
Lemma run_op_on_snapshot op st base body :
  holds_snapshot st base body →
  ∃ st' outcome,
    run_op op st = (st', outcome)
    ∧ listing_calls st' = listing_calls st
    ∧ holds_snapshot st' base body
    ∧ (∀ op' r, op_test op' (store st') r = op_test op' (store st) r)
    ∧ (∀ result, outcome = inr result →
         result
         = filter (λ r, op_test op (store st) r = true)
             (seq base (length body))).
Proof.
  intros Hs. pose proof Hs as (Hc & _ & _).
  pose proof (holds_snapshot_valid _ _ _ Hs) as Hv.
  destruct op as [q|q]; simpl.
  - rewrite (get_repositories_from q st st _ (all_repos_cached q st _ Hc)), Hv.
    cbv zeta. eexists _, _. split; [done|]. split; [done|].
    split; [by apply holds_snapshot_prune|]. split.
    + intros [q'|q'] r; simpl; [apply win_at_prune_all|apply other_at_prune_all].
    + intros result. destruct (forallb (importers_ok _) _); [|done].
      by intros [= <-].
  - rewrite (get_other_repositories_from q st st _ (all_repos_cached q st _ Hc)), Hv.
    eexists _, _. split; [done|]. split; [done|]. split; [done|]. split; [done|].
    by intros result [= <-].
Qed.

(** Any sequence of calls on an instance that holds a snapshot. *)
Lemma run_ops_on_snapshot ops st base body :
  holds_snapshot st base body →
  ∃ st' outcome,
    run_ops ops st = (st', outcome)
    ∧ listing_calls st' = listing_calls st
    ∧ holds_snapshot st' base body
    ∧ (∀ op' r, op_test op' (store st') r = op_test op' (store st) r)
    ∧ (∀ results, outcome = inr results →
         Forall2 (λ op result,
                    result
                    = filter (λ r, op_test op (store st') r = true)
                        (seq base (length body)))
           ops results).
Proof.
  revert st. induction ops as [|op ops IH]; intros st Hs.
  - exists st, (inr []). split; [done|]. split; [done|]. split; [done|].
    split; [done|]. intros results [= <-]. constructor.
  - destruct (run_op_on_snapshot op st base body Hs)
      as (st1 & o1 & Hrun & Hcalls & Hs1 & Hsame & Hres).
    destruct o1 as [e|result].
    { exists st1, (inl e). split.
      { simpl. by rewrite (lbind_raise _ _ _ _ _ Hrun). }
      split; [done|]. split; [done|]. split; [done|]. by intros. }
    destruct (IH st1 Hs1) as (st2 & o2 & Hrun2 & Hcalls2 & Hs2 & Hsame2 & Hres2).
    exists st2, (match o2 with inr results => inr (result :: results)
                          | inl e => inl e end).
    split.
    { simpl. rewrite (lbind_value _ _ _ _ _ Hrun).
      destruct o2 as [e|results].
      - by rewrite (lbind_raise _ _ _ _ _ Hrun2).
      - by rewrite (lbind_value _ _ _ _ _ Hrun2). }
    split; [congruence|]. split; [done|]. split.
    { intros op' r. by rewrite Hsame2, Hsame. }
    intros results Hout. destruct o2 as [e|results2]; [done|].
    injection Hout as <-. constructor; [|exact (Hres2 _ eq_refl)].
    rewrite (Hres result eq_refl). apply filter_iff_on.
    intros r _. by rewrite Hsame2, Hsame.
Qed.
End Snapshot.

Section Invocation.
Context {N : Names} {R : ListingServer}.

Lemma run_op_after_fetch op st st1 refs :
  _all_repos (op_query op) st = (st1, inr refs) →
  run_op op st = run_op op st1.
Proof.
  intros Hall. pose proof (all_repos_cache_after _ _ _ _ Hall) as Hc.
  destruct op as [q|q]; simpl in *.
  - by rewrite (get_repositories_from q st st1 refs Hall),
      (get_repositories_from q st1 st1 refs (all_repos_cached q st1 refs Hc)).
  - by rewrite (get_other_repositories_from q st st1 refs Hall),
      (get_other_repositories_from q st1 st1 refs
         (all_repos_cached q st1 refs Hc)).
Qed.

Lemma run_op_fetch_fails op st st1 e :
  _all_repos (op_query op) st = (st1, inl e) →
  run_op op st = (st1, inl e).
Proof.
  intros Hall. destruct op as [q|q]; simpl in *.
  - by apply get_repositories_raise.
  - by apply get_other_repositories_raise.
Qed.

Lemma run_ops_cons op ops st :
  run_ops (op :: ops) st
  = lbind (run_op op)
      (λ result, lbind (run_ops ops) (λ results, lret (result :: results))) st.
Proof. done. Qed.

(** C9. A new instance has an empty cache; a filled cache answers
    [_all_repos] without a remote call; an invocation makes no remote
    listing call when no method is called and exactly one, with the query
    of the first method called, otherwise; and when the invocation returns,
    every result is the selection, by the method's test, from the
    references to the records of that one response, which the store still
    holds up to their distributors. *)
Theorem listing_is_fetched_once_per_invocation ops st :
  all_repos_cache (MsiRepoListCommand__init__ st).1 = None
  ∧ (∀ query_params st1 refs,
       all_repos_cache st1 = Some refs →
       _all_repos query_params st1 = (st1, inr refs))
  ∧ listing_calls (invocation ops st).1
    = (listing_calls st
       ++ match ops with [] => [] | op :: _ => [op_query op] end)%list
  ∧ (∀ op rest results,
       ops = op :: rest →
       (invocation ops st).2 = inr results →
       ∃ body,
         repositories (length (listing_calls st)) (op_query op) = inr body
         ∧ holds_snapshot (invocation ops st).1 (length (store st)) body
         ∧ Forall2
             (λ op result,
                result
                = filter (λ r, op_test op (store (invocation ops st).1) r = true)
                    (seq (length (store st)) (length body)))
             ops results).
Proof.
  split; [done|]. split; [by intros; apply all_repos_cached|].
  unfold invocation.
  set (st0 := {| all_repos_cache := None; store := store st;
                 listing_calls := listing_calls st |}).
  assert (lbind MsiRepoListCommand__init__ (λ _, run_ops ops) st
          = run_ops ops st0) as -> by done.
  destruct ops as [|op rest].
  { simpl. split; [by rewrite app_nil_r|]. by intros. }
  pose proof (all_repos_fetched (op_query op) st0 eq_refl) as Hall.
  simpl in Hall.
  destruct (repositories (length (listing_calls st)) (op_query op))
    as [e|body] eqn:Hrep.
  { rewrite run_ops_cons.
    rewrite (lbind_raise _ _ _ _ _ (run_op_fetch_fails _ _ _ _ Hall)).
    split; [done|]. by intros. }
  set (st1 := {| all_repos_cache := Some (seq (length (store st)) (length body));
                 store := (store st ++ body)%list;
                 listing_calls := (listing_calls st ++ [op_query op])%list |})
    in Hall.
  assert (run_ops (op :: rest) st0 = run_ops (op :: rest) st1) as ->.
  { rewrite !run_ops_cons. unfold lbind at 1 3.
    by rewrite (run_op_after_fetch _ _ _ _ Hall). }
  assert (holds_snapshot st1 (length (store st)) body) as Hs.
  { split; [done|]. split; [simpl; by rewrite length_app|].
    intros i x Hx. exists x. split; [|done]. simpl.
    rewrite lookup_app_r by lia.
    by replace (length (store st) + i - length (store st)) with i by lia. }
  destruct (run_ops_on_snapshot (op :: rest) st1 _ _ Hs)
    as (st' & o & -> & Hcalls & Hs' & _ & Hres).
  simpl. split; [done|].
  intros op' rest' results [= <- <-] ->. exists body.
  split; [done|]. split; [done|]. by apply Hres.
Qed.
End Invocation.

(** C4: on a detailed listing that holds a WIN-tagged repository without
    importer, [get_repositories] raises [IndexError] and
    [get_other_repositories] returns no record, so the record is in
    neither result. *)
Theorem get_repositories_raises_without_importer :
  (get_repositories (N := example_names) (R := detailed_listing_server)
     ∅ new_command).2 = inl IndexError
  ∧ (get_other_repositories (N := example_names)
       (R := detailed_listing_server) ∅ new_command).2 = inr [].
Proof. split; vm_compute; reflexivity. Qed.

Section ListWitnesses.
#[local] Existing Instance example_names.
#[local] Existing Instance example_listing_server.

Lemma retained_records_keep_only_the_win_distributor_witness :
  ∃ x x',
    store (_all_repos ∅ new_command).1 !! 0 = Some x
    ∧ store example_listed !! 0 = Some x'
    ∧ has_win_note x = true
    ∧ r_distributors x'
      = filter (λ d, d_id d = WIN_DISTRIBUTOR_ID) <$> r_distributors x
    ∧ r_id x' = r_id x
    ∧ r_notes x' = r_notes x
    ∧ r_importers x' = r_importers x.
Proof.
  apply (retained_records_keep_only_the_win_distributor
           ∅ new_command example_listed [0] 0).
  - vm_compute. reflexivity.
  - constructor.
Defined.

Lemma listing_is_fetched_once_per_invocation_witness :
  ∃ body,
    repositories (length (listing_calls new_command))
      (op_query (op_get_repositories ∅)) = inr body
    ∧ holds_snapshot
        (invocation [op_get_repositories ∅; op_get_other_repositories ∅]
           new_command).1
        (length (store new_command)) body
    ∧ Forall2
        (λ op result,
           result
           = filter
               (λ r, op_test op
                       (store
                          (invocation
                             [op_get_repositories ∅;
                              op_get_other_repositories ∅] new_command).1)
                       r = true)
               (seq (length (store new_command)) (length body)))
        [op_get_repositories ∅; op_get_other_repositories ∅]
        [[0]; [1]].
Proof.
  apply (proj2 (proj2 (proj2
           (listing_is_fetched_once_per_invocation
              [op_get_repositories ∅; op_get_other_repositories ∅]
              new_command)))
           (op_get_repositories ∅) [op_get_other_repositories ∅]).
  - reflexivity.
  - vm_compute. reflexivity.
Defined.
End ListWitnesses.

(** ** The configuration builder and the caller's dictionary *)

Lemma hyphen_free_fixed (k : string) : hyphen_free k ↔ underscored k = k.
Proof.
  unfold hyphen_free. induction k as [|c k IH]; simpl.
  - split; [done|]. intros _. apply not_elem_of_nil.
  - rewrite not_elem_of_cons, IH. split.
    + intros [Hc ->]. destruct (Ascii.eqb c "-") eqn:Heq; [|done].
      apply Ascii.eqb_eq in Heq. congruence.
    + intros [= Hc Hk]. split; [|done].
      destruct (Ascii.eqb c "-") eqn:Heq.
      * apply Ascii.eqb_eq in Heq. subst c. done.
      * apply Ascii.eqb_neq in Heq. congruence.
Qed.

Section BuilderKeys.
Context {C : RemovalConvention}.

Lemma prep_config_returns_inv kwargs keys kwargs' config :
  outcome (_prep_config kwargs keys) = inr (kwargs', config) →
  translate_keys (dict_keys kwargs) kwargs = inr kwargs'
  ∧ convert_removed_options (renamed_config keys kwargs') = inr config.
Proof.
  destruct (hyphen_loop_total kwargs) as [kw Hrun].
  rewrite (prep_config_unfold _ kw) by done. simpl.
  destruct (convert_removed_options (renamed_config keys kw)) eqn:Hc; [done|].
  by intros [= <- <-].
Qed.

(** X1. When [_prep_config] returns, the caller's dictionary has no key
    with a hyphen; every entry of it is the entry of an original key whose
    hyphens became underscores; every original key is there in its
    translated form; and an original key whose translation no other key
    shares keeps its value. *)
Theorem prep_config_translates_argument_keys kwargs keys kwargs' config :
  outcome (_prep_config kwargs keys) = inr (kwargs', config) →
  (∀ k', is_Some (kwargs' !! k') → hyphen_free k')
  ∧ (∀ k' v, kwargs' !! k' = Some v →
       ∃ k, str_replace "-" "_" k = k' ∧ kwargs !! k = Some v)
  ∧ (∀ k, is_Some (kwargs !! k) →
       is_Some (kwargs' !! str_replace "-" "_" k))
  ∧ (∀ k v, kwargs !! k = Some v →
       (∀ k2, is_Some (kwargs !! k2) →
          str_replace "-" "_" k2 = str_replace "-" "_" k → k2 = k) →
       kwargs' !! str_replace "-" "_" k = Some v).
Proof.
  intros [Hrun _]%prep_config_returns_inv. split; [|split; [|split]].
  - intros k' Hk'. apply hyphen_free_fixed. by eapply hyphen_loop_fixed.
  - intros k' v Hv. by eapply hyphen_loop_origin.
  - intros k Hk. destruct (translate_keys_dom _ _ _ Hrun) as [Hdom _].
    apply Hdom. by apply elem_of_dict_keys.
  - intros k v Hv Huniq. by eapply hyphen_loop_lookup.
Qed.

(** X2. [_prep_config] leaves a dictionary without hyphens in its keys
    as the caller passed it. *)
Theorem prep_config_keeps_hyphen_free_arguments kwargs keys kwargs' config :
  (∀ k, is_Some (kwargs !! k) → hyphen_free k) →
  outcome (_prep_config kwargs keys) = inr (kwargs', config) →
  kwargs' = kwargs.
Proof.
  intros Hfree [Hrun _]%prep_config_returns_inv.
  rewrite translate_keys_fixed in Hrun; [by injection Hrun|].
  intros k Hk%elem_of_dict_keys. split; [done|].
  apply hyphen_free_fixed. by apply Hfree.
Qed.

(** X3. Building again from the dictionary a first build has left gives
    the same dictionary and the same configuration. *)
Theorem prep_config_again_gives_the_same kwargs keys kwargs' config :
  outcome (_prep_config kwargs keys) = inr (kwargs', config) →
  outcome (_prep_config kwargs' keys) = inr (kwargs', config).
Proof.
  intros [Hrun Hc]%prep_config_returns_inv.
  rewrite (prep_config_unfold _ kwargs') by (by eapply hyphen_loop_idem).
  simpl. by rewrite Hc.
Qed.

(** X4. [_prep_config] calls the removal convention exactly once, with a
    configuration that has no key outside the plugin keys of the table
    and, for a table that renames cleanly, an entry for every plugin key:
    the argument under the CLI key, [None] when it was not given. *)
Theorem prep_config_hands_over_every_plugin_key kwargs keys :
  ∃ kwargs' args,
    translate_keys (dict_keys kwargs) kwargs = inr kwargs'
    ∧ trace (_prep_config kwargs keys) = [call_convert_removed_options args]
    ∧ (∀ k, is_Some (args !! k) → k ∈ keys.*1)
    ∧ (renames_cleanly keys →
       (∀ k, k ∈ keys.*1 → is_Some (args !! k))
       ∧ ∀ plugin_key cli_key,
           (plugin_key, cli_key) ∈ keys →
           args !! plugin_key = Some (argument kwargs' cli_key)).
Proof.
  destruct (hyphen_loop_total kwargs) as [kwargs' Hrun].
  exists kwargs', (renamed_config keys kwargs').
  rewrite (prep_config_unfold _ kwargs') by done.
  split; [done|]. split; [done|]. split; [apply renamed_config_closure|].
  intros Hok. split.
  - intros k ([pk ck] & -> & Hin)%list_elem_of_fmap. simpl.
    rewrite (renamed_config_lookup _ _ pk ck) by done. by eexists.
  - intros pk ck Hin. by apply renamed_config_lookup.
Qed.
End BuilderKeys.

(** ** The outcome of a run *)

Lemma remote_calls_none t :
  Forall (λ ev, is_remote_call ev = false) t → remote_calls t = [].
Proof.
  unfold remote_calls. induction 1 as [|ev t Hev _ IH]; [done|].
  rewrite filter_cons, decide_False by congruence. done.
Qed.

Lemma remote_calls_app t1 t2 :
  remote_calls (t1 ++ t2) = (remote_calls t1 ++ remote_calls t2)%list.
Proof. apply filter_app. Qed.

Section CommandOutcomes.
Context {N : Names} {C : RemovalConvention} {S : Server}.

(** X5. Without the repository id among the arguments, create and
    update raise [KeyError] before anything is logged, rendered or sent. *)
Theorem run_without_repo_id_raises_KeyError kwargs :
  kwargs !! OPTION_REPO_ID_keyword = None →
  MsiRepoCreateCommand_run kwargs = ([], inl (KeyError OPTION_REPO_ID_keyword))
  ∧ MsiRepoUpdateCommand_run kwargs
    = ([], inl (KeyError OPTION_REPO_ID_keyword)).
Proof.
  intros Hid. split.
  - apply create_run_gather_fails.
    unfold create_gather_data, dict_pop. by rewrite Hid.
  - apply update_run_gather_fails.
    unfold update_gather_data, dict_pop. by rewrite Hid.
Qed.

(** X6. Create pops the notes without a default and assigns the type
    marker into them: without the notes keyword it raises [KeyError], and
    with notes that are truthy and no dictionary it raises [TypeError];
    in both cases nothing has been logged, rendered or sent. *)
Theorem create_with_unusable_notes_raises kwargs repo_id :
  kwargs !! OPTION_REPO_ID_keyword = Some repo_id →
  (kwargs !! OPTION_NOTES_keyword = None →
   MsiRepoCreateCommand_run kwargs
   = ([], inl (KeyError OPTION_NOTES_keyword)))
  ∧ (∀ v, kwargs !! OPTION_NOTES_keyword = Some v →
       OPTION_NOTES_keyword ≠ OPTION_REPO_ID_keyword →
       OPTION_NOTES_keyword ≠ OPTION_DESCRIPTION_keyword →
       OPTION_NOTES_keyword ≠ OPTION_NAME_keyword →
       truthy v = true → (∀ d, v ≠ PyDict d) →
       MsiRepoCreateCommand_run kwargs = ([], inl TypeError)).
Proof.
  intros Hid. split.
  - intros Hn. apply create_run_gather_fails.
    unfold create_gather_data, dict_pop, dict_pop_default. rewrite Hid. simpl.
    match goal with |- context [ ?m !! OPTION_NOTES_keyword ] =>
      assert (m !! OPTION_NOTES_keyword = None) as ->
        by (rewrite !lookup_delete_None; tauto) end.
    done.
  - intros v Hv H1 H2 H3 Ht Hd. apply create_run_gather_fails.
    unfold create_gather_data, dict_pop, dict_pop_default. rewrite Hid. simpl.
    rewrite !lookup_delete_ne by done. rewrite Hv. simpl. rewrite Ht.
    destruct v; try done. by destruct (Hd d).
Qed.

Lemma prep_config_builder_events kwargs keys :
  Forall (λ ev, is_builder_event ev = true) (trace (_prep_config kwargs keys)).
Proof.
  destruct (hyphen_loop_total kwargs) as [kwargs' Hrun].
  rewrite (prep_config_unfold _ kwargs') by done. simpl. by repeat constructor.
Qed.

Lemma args_to_importer_config_builder_events kwargs :
  Forall (λ ev, is_builder_event ev = true)
    (trace (args_to_importer_config kwargs)).
Proof.
  unfold args_to_importer_config.
  apply bind_trace_Forall; [apply prep_config_builder_events|].
  intros [kw config]. simpl. by repeat constructor.
Qed.

Lemma args_to_win_distributor_config_builder_events kwargs :
  Forall (λ ev, is_builder_event ev = true)
    (trace (args_to_win_distributor_config kwargs)).
Proof.
  unfold args_to_win_distributor_config.
  apply bind_trace_Forall; [apply prep_config_builder_events|].
  intros [kw config]. simpl. by repeat constructor.
Qed.

Lemma create_build_configs_builder_events kwargs :
  Forall (λ ev, is_builder_event ev = true)
    (trace (create_build_configs kwargs)).
Proof.
  unfold create_build_configs.
  apply bind_trace_Forall; [apply args_to_importer_config_builder_events|].
  intros [kw config].
  apply bind_trace_Forall; [apply args_to_win_distributor_config_builder_events|].
  by intros [kw' config'].
Qed.

Lemma builder_events_not_rendering t ev :
  Forall (λ ev, is_builder_event ev = true) t → ev ∈ t →
  is_rendering ev = false ∧ is_remote_call ev = false.
Proof.
  intros Hall Hin. rewrite Forall_forall in Hall. specialize (Hall ev Hin).
  by destruct ev.
Qed.

(** X7. Once create has made its remote call, the run follows the
    answer of the server: when the server accepts, the run returns and
    the success message for the repository id is the last event; when the
    server raises, the exception leaves the run and nothing is rendered. *)
Theorem create_outcome_is_the_answer_of_the_server kwargs repo_id display_name
    description notes importer_type importer_config distributors :
  call_create_and_configure repo_id display_name description notes
      importer_type importer_config distributors
    ∈ trace (MsiRepoCreateCommand_run kwargs) →
  match create_and_configure repo_id display_name description notes
          importer_type importer_config distributors with
  | inr _ =>
      outcome (MsiRepoCreateCommand_run kwargs) = inr tt
      ∧ last (trace (MsiRepoCreateCommand_run kwargs))
        = Some (render_success_message
                  (Successfully_created_repository repo_id))
  | inl e =>
      outcome (MsiRepoCreateCommand_run kwargs) = inl e
      ∧ Forall (λ ev, is_rendering ev = false)
          (trace (MsiRepoCreateCommand_run kwargs))
  end.
Proof.
  intros (kw & dc & Hg & Hb & -> & ->)%create_call_inv.
  rewrite (create_run_unfold _ _ _ _ _ _ Hg), Hb. cbv zeta.
  destruct (create_and_configure _ _ _ _ _ _ _) as [e|[]]; simpl.
  - split; [done|]. apply Forall_app. split; [|by repeat constructor].
    apply Forall_forall. intros ev Hev.
    by destruct (builder_events_not_rendering _ _
                   (create_build_configs_builder_events kw) Hev).
  - split; [done|].
    by rewrite (last_app _ [_; _]).
Qed.

(** X9. A run of create or update makes at most one remote call. *)
Theorem run_makes_at_most_one_remote_call kwargs :
  (length (remote_calls (trace (MsiRepoCreateCommand_run kwargs))) ≤ 1)%nat
  ∧ (length (remote_calls (trace (MsiRepoUpdateCommand_run kwargs))) ≤ 1)%nat.
Proof.
  split.
  - destruct (outcome (create_gather_data kwargs))
      as [e|[[[[rid desc] dn] nt] kw]] eqn:Hg.
    { rewrite (create_run_gather_fails _ _ Hg). simpl. lia. }
    rewrite (create_run_unfold _ _ _ _ _ _ Hg).
    pose proof (remote_calls_none _ (create_build_configs_trace kw)) as Hnone.
    destruct (outcome (create_build_configs kw)) as [e|[ic dc]].
    + destruct e; simpl; rewrite ?remote_calls_app, Hnone; simpl; lia.
    + cbv zeta. simpl. rewrite remote_calls_app, Hnone.
      destruct (create_and_configure _ _ _ _ _ _ _); simpl; lia.
  - destruct (outcome (update_gather_data kwargs))
      as [e|[[[[rid desc] dn] nt] kw]] eqn:Hg.
    { rewrite (update_run_gather_fails _ _ Hg). simpl. lia. }
    rewrite (update_run_unfold _ _ _ _ _ _ Hg). cbv zeta.
    pose proof (remote_calls_none _ (args_to_importer_config_trace kw)) as Hi.
    destruct (outcome (args_to_importer_config kw)) as [e|[kw1 ic]].
    { destruct e; simpl; rewrite ?remote_calls_app, Hi; simpl; lia. }
    pose proof (remote_calls_none _
                  (args_to_win_distributor_config_trace kw1)) as Hd.
    destruct (outcome (args_to_win_distributor_config kw1)) as [e|[kw2 dc]].
    { destruct e; simpl; rewrite ?remote_calls_app, Hi, ?Hd; simpl; lia. }
    simpl. rewrite !remote_calls_app, Hi, Hd.
    destruct (update_repo_and_plugins _ _ _ _ _ _) as [e|response]; simpl;
      [lia|]. destruct (is_async response); simpl; lia.
Qed.
End CommandOutcomes.

Section RaisingRuns.
Context {N : Names} {C : RemovalConvention} {S : Server}.

(** X10. A run of create or update that raises has rendered nothing
    to the user. *)
Theorem run_that_raises_renders_nothing kwargs e :
  (outcome (MsiRepoCreateCommand_run kwargs) = inl e →
   Forall (λ ev, is_rendering ev = false)
     (trace (MsiRepoCreateCommand_run kwargs)))
  ∧ (outcome (MsiRepoUpdateCommand_run kwargs) = inl e →
     Forall (λ ev, is_rendering ev = false)
       (trace (MsiRepoUpdateCommand_run kwargs))).
Proof.
  assert (∀ t, Forall (λ ev, is_builder_event ev = true) t →
            Forall (λ ev, is_rendering ev = false) t) as Hquiet.
  { intros t Ht. apply Forall_forall. intros ev Hev.
    by destruct (builder_events_not_rendering _ _ Ht Hev). }
  split.
  - destruct (outcome (create_gather_data kwargs))
      as [e0|[[[[rid desc] dn] nt] kw]] eqn:Hg.
    { by rewrite (create_run_gather_fails _ _ Hg). }
    rewrite (create_run_unfold _ _ _ _ _ _ Hg).
    pose proof (Hquiet _ (create_build_configs_builder_events kw)) as Hb.
    destruct (outcome (create_build_configs kw)) as [e0|[ic dc]].
    + by destruct e0.
    + cbv zeta. destruct (create_and_configure _ _ _ _ _ _ _); simpl; [|done].
      intros _. apply Forall_app. split; [done|]. by repeat constructor.
  - destruct (outcome (update_gather_data kwargs))
      as [e0|[[[[rid desc] dn] nt] kw]] eqn:Hg.
    { by rewrite (update_run_gather_fails _ _ Hg). }
    rewrite (update_run_unfold _ _ _ _ _ _ Hg). cbv zeta.
    pose proof (Hquiet _ (args_to_importer_config_builder_events kw)) as Hi.
    destruct (outcome (args_to_importer_config kw)) as [e0|[kw1 ic]].
    { by destruct e0. }
    pose proof (Hquiet _ (args_to_win_distributor_config_builder_events kw1))
      as Hd.
    destruct (outcome (args_to_win_distributor_config kw1)) as [e0|[kw2 dc]].
    { destruct e0; simpl; try done; intros _; by apply Forall_app. }
    destruct (update_repo_and_plugins _ _ _ _ _ _); simpl; [|done].
    intros _. apply Forall_app. split; [done|]. apply Forall_app.
    split; [done|]. by repeat constructor.
Qed.
End RaisingRuns.

Section CommandCalls.
Context {N : Names} {C : RemovalConvention} {S : Server}.

(** X8. Once update has made its remote call, the run is the events of
    the builder, the call, and then: the success message when the answer
    is not asynchronous; the postponed paragraph followed by the reasons
    of the answer when it is; nothing, with the exception of the server
    leaving the run, when the server raises. *)
Theorem update_reports_by_the_answer_of_the_server kwargs repo_id display_name
    description notes importer_config distributor_configs :
  call_update_repo_and_plugins repo_id display_name description notes
      importer_config distributor_configs
    ∈ trace (MsiRepoUpdateCommand_run kwargs) →
  ∃ built,
    Forall (λ ev, is_builder_event ev = true) built
    ∧ match update_repo_and_plugins repo_id display_name description notes
              importer_config distributor_configs with
      | inr response =>
          MsiRepoUpdateCommand_run kwargs
          = ((built
              ++ call_update_repo_and_plugins repo_id display_name
                   description notes importer_config distributor_configs
                 :: (if is_async response
                     then [render_paragraph Repository_update_postponed;
                           render_reasons (reasons response)]
                     else [render_success_message
                             (Repository_successfully_updated repo_id)]))%list,
             inr tt)
      | inl e =>
          MsiRepoUpdateCommand_run kwargs
          = ((built
              ++ [call_update_repo_and_plugins repo_id display_name
                    description notes importer_config distributor_configs])%list,
             inl e)
      end.
Proof.
  intros (kw & kw1 & kw2 & dc & Hg & Hi & Hd & ->)%update_call_inv.
  exists (trace (args_to_importer_config kw)
          ++ trace (args_to_win_distributor_config kw1))%list.
  split.
  { apply Forall_app. split;
      [apply args_to_importer_config_builder_events
      |apply args_to_win_distributor_config_builder_events]. }
  rewrite (update_run_unfold _ _ _ _ _ _ Hg). cbv zeta. rewrite Hi, Hd.
  destruct (update_repo_and_plugins _ _ _ _ _ _) as [e|response].
  - by rewrite <- app_assoc.
  - destruct (is_async response); simpl; by rewrite <- app_assoc.
Qed.

Lemma create_gather_data_fields kwargs repo_id description display_name notes kw :
  outcome (create_gather_data kwargs)
    = inr (repo_id, description, display_name, notes, kw) →
  description
  = default PyNone
      (delete OPTION_REPO_ID_keyword kwargs !! OPTION_DESCRIPTION_keyword)
  ∧ display_name
    = default PyNone
        (delete OPTION_DESCRIPTION_keyword
           (delete OPTION_REPO_ID_keyword kwargs) !! OPTION_NAME_keyword).
Proof.
  unfold create_gather_data, dict_pop, dict_pop_default, setitem.
  destruct (kwargs !! OPTION_REPO_ID_keyword) as [rid|]; simpl; [|done].
  match goal with |- context [ ?m !! OPTION_NOTES_keyword ] =>
    destruct (m !! OPTION_NOTES_keyword) as [v|] end; simpl; [|done].
  destruct (truthy v); [destruct v|]; simpl; try done;
    by intros [= <- <- <- <- <-].
Qed.

Lemma update_gather_data_fields kwargs repo_id description display_name notes kw :
  outcome (update_gather_data kwargs)
    = inr (repo_id, description, display_name, notes, kw) →
  description
  = default PyNone
      (delete OPTION_REPO_ID_keyword kwargs !! OPTION_DESCRIPTION_keyword)
  ∧ display_name
    = default PyNone
        (delete OPTION_DESCRIPTION_keyword
           (delete OPTION_REPO_ID_keyword kwargs) !! OPTION_NAME_keyword).
Proof.
  unfold update_gather_data, dict_pop, dict_pop_default.
  destruct (kwargs !! OPTION_REPO_ID_keyword) as [rid|]; simpl; [|done].
  by intros [= <- <- <- <- <-].
Qed.

(** X11. The remote create call carries the repository id, the
    description and the display name of the arguments ([None] when not
    given), the WIN importer type, and a single distributor descriptor of
    the WIN distributor type and id with automatic publishing. *)
Theorem create_call_carries_the_arguments kwargs repo_id display_name
    description notes importer_type importer_config distributors :
  NoDup [OPTION_REPO_ID_keyword; OPTION_DESCRIPTION_keyword;
         OPTION_NAME_keyword] →
  call_create_and_configure repo_id display_name description notes
      importer_type importer_config distributors
    ∈ trace (MsiRepoCreateCommand_run kwargs) →
  kwargs !! OPTION_REPO_ID_keyword = Some repo_id
  ∧ description = argument kwargs OPTION_DESCRIPTION_keyword
  ∧ display_name = argument kwargs OPTION_NAME_keyword
  ∧ importer_type = TYPE_ID_IMPORTER_WIN
  ∧ ∃ config, distributors = [win_descriptor config].
Proof.
  intros Hnd (kw & dc & Hg & _ & -> & ->)%create_call_inv.
  apply NoDup_cons in Hnd as [H1 Hnd]. apply NoDup_cons in Hnd as [H2 _].
  apply not_elem_of_cons in H1 as [H12 H1].
  apply not_elem_of_cons in H1 as [H13 _].
  apply not_elem_of_cons in H2 as [H23 _].
  destruct (create_gather_data_fields _ _ _ _ _ _ Hg) as [-> ->].
  apply create_gather_data_inv in Hg as (Hid & _).
  unfold argument. rewrite !lookup_delete_ne by done.
  split; [done|]. split; [done|]. split; [done|]. split; [done|].
  by eexists.
Qed.

(** X12. The remote update call carries the repository id, the
    description, the display name and the notes of the arguments ([None]
    when not given), and one distributor configuration, under the WIN
    distributor type. *)
Theorem update_call_carries_the_arguments kwargs repo_id display_name
    description notes importer_config distributor_configs :
  NoDup [OPTION_REPO_ID_keyword; OPTION_DESCRIPTION_keyword;
         OPTION_NAME_keyword; OPTION_NOTES_keyword] →
  call_update_repo_and_plugins repo_id display_name description notes
      importer_config distributor_configs
    ∈ trace (MsiRepoUpdateCommand_run kwargs) →
  kwargs !! OPTION_REPO_ID_keyword = Some repo_id
  ∧ description = argument kwargs OPTION_DESCRIPTION_keyword
  ∧ display_name = argument kwargs OPTION_NAME_keyword
  ∧ notes = argument kwargs OPTION_NOTES_keyword
  ∧ ∃ config, distributor_configs = {[TYPE_ID_DISTRIBUTOR_WIN := config]}.
Proof.
  intros Hnd (kw & kw1 & kw2 & dc & Hg & _ & _ & ->)%update_call_inv.
  apply NoDup_cons in Hnd as [H1 Hnd]. apply NoDup_cons in Hnd as [H2 Hnd].
  apply NoDup_cons in Hnd as [H3 _].
  apply not_elem_of_cons in H1 as [H12 H1].
  apply not_elem_of_cons in H1 as [H13 H1].
  apply not_elem_of_cons in H1 as [H14 _].
  apply not_elem_of_cons in H2 as [H23 H2].
  apply not_elem_of_cons in H2 as [H24 _].
  apply not_elem_of_cons in H3 as [H34 _].
  destruct (update_gather_data_fields _ _ _ _ _ _ Hg) as [-> ->].
  apply update_gather_data_inv in Hg as (Hid & _ & ->).
  unfold argument. rewrite !lookup_delete_ne by done.
  split; [done|]. split; [done|]. split; [done|]. split; [done|].
  by eexists.
Qed.
End CommandCalls.

(** X13. The defaults of create never overwrite an entry of the built
    configuration, add no key other than [relative_url], [http] and
    [https], and applying them again, for whatever repository id, changes
    nothing. *)
Theorem create_defaults_are_final (repo_id repo_id' : pyval)
    (config : gmap string pyval) :
  create_defaults repo_id' (create_defaults repo_id config)
  = create_defaults repo_id config
  ∧ (∀ k v, config !! k = Some v →
       create_defaults repo_id config !! k = Some v)
  ∧ (∀ k, is_Some (create_defaults repo_id config !! k) →
       is_Some (config !! k) ∨ k ∈ ["relative_url"; "http"; "https"]).
Proof.
  assert (∀ k, k ≠ "relative_url" → k ≠ "http" → k ≠ "https" →
            create_defaults repo_id config !! k = config !! k) as Hother
    by (intros; by apply create_defaults_other).
  split; [|split].
  - apply map_eq. intros k.
    destruct (decide (k = "relative_url")) as [->|H1].
    { by rewrite !create_defaults_relative_url. }
    destruct (decide (k = "http")) as [->|H2].
    { by rewrite !create_defaults_http. }
    destruct (decide (k = "https")) as [->|H3].
    { rewrite (create_defaults_https repo_id').
      by rewrite (create_defaults_https repo_id). }
    by rewrite create_defaults_other.
  - intros k v Hv.
    destruct (decide (k = "relative_url")) as [->|H1].
    { by rewrite create_defaults_relative_url, Hv. }
    destruct (decide (k = "http")) as [->|H2].
    { by rewrite create_defaults_http, Hv. }
    destruct (decide (k = "https")) as [->|H3].
    { by rewrite create_defaults_https, Hv. }
    by rewrite Hother.
  - intros k Hk.
    destruct (decide (k = "relative_url")) as [->|H1]; [right; set_solver|].
    destruct (decide (k = "http")) as [->|H2]; [right; set_solver|].
    destruct (decide (k = "https")) as [->|H3]; [right; set_solver|].
    left. by rewrite <- Hother.
Qed.

(** ** The listing methods *)

Section ListingMethods.
Context {N : Names} {R : ListingServer}.

Lemma fetched_lookup (s body : list RepositoryRecord) i :
  (s ++ body)%list !! (length s + i)%nat = body !! i.
Proof.
  rewrite lookup_app_r by lia. f_equal. lia.
Qed.

Lemma fetched_valid (s body : list RepositoryRecord) :
  forallb (valid_ref (s ++ body)) (seq (length s) (length body)) = true.
Proof.
  apply forallb_forall. intros r Hr. apply in_seq in Hr.
  apply valid_ref_Some. apply lookup_lt_is_Some. rewrite length_app. lia.
Qed.

Lemma importers_checked (s body : list RepositoryRecord) (l : list nat) :
  forallb (importers_ok (prune_all (s ++ body) l))
    (filter (λ r, win_at (s ++ body) r = true) (seq (length s) (length body)))
  = true
  ↔ importers_usable body.
Proof.
  rewrite forallb_forall. unfold importers_usable. rewrite Forall_lookup. split.
  - intros H i x Hx Hwin Himp.
    assert (win_at (s ++ body) (length s + i) = true) as Hw.
    { unfold win_at, test_at. by rewrite fetched_lookup, Hx. }
    specialize (H (length s + i)).
    rewrite importers_ok_prune_all in H. unfold importers_ok in H.
    rewrite fetched_lookup, Hx, Himp in H. discriminate H.
    apply list_elem_of_In, list_elem_of_filter. split; [done|].
    apply list_elem_of_In, in_seq. apply lookup_lt_Some in Hx. lia.
  - intros H r Hr. apply list_elem_of_In, list_elem_of_filter in Hr as [Hw Hr].
    apply list_elem_of_In, in_seq in Hr.
    rewrite importers_ok_prune_all.
    replace r with (length s + (r - length s)) in * by lia.
    unfold win_at, test_at in Hw. unfold importers_ok.
    rewrite fetched_lookup in *.
    destruct (body !! (r - length s)) as [x|] eqn:Hx; [|done].
    specialize (H _ _ Hx Hw).
    by destruct (r_importers x) as [[|]|].
Qed.

(** X14. On an instance without cached listing whose server answers
    with [body], [get_repositories] returns the references to the WIN
    records when no WIN record of [body] has an empty [importers] list,
    and raises [IndexError] otherwise; in both cases the listing is
    cached and one remote call has been made. *)
Theorem get_repositories_raises_exactly_on_empty_importers
    query_params st body :
  all_repos_cache st = None →
  repositories (length (listing_calls st)) query_params = inr body →
  let refs := seq (length (store st)) (length body) in
  (importers_usable body →
   (get_repositories query_params st).2
   = inr (filter (λ r, win_at (store st ++ body) r = true) refs))
  ∧ (¬ importers_usable body →
     (get_repositories query_params st).2 = inl IndexError)
  ∧ all_repos_cache (get_repositories query_params st).1 = Some refs
  ∧ listing_calls (get_repositories query_params st).1
    = (listing_calls st ++ [query_params])%list.
Proof.
  intros Hc Hrep refs.
  pose proof (all_repos_fetched query_params st Hc) as Hall.
  rewrite Hrep in Hall. cbv zeta in Hall.
  rewrite (get_repositories_from _ _ _ _ Hall). simpl.
  rewrite fetched_valid. cbv zeta. simpl.
  pose proof (importers_checked (store st) body
                (filter (λ r, win_at (store st ++ body) r = true) refs))
    as Hiff.
  destruct (forallb _ _) eqn:Hok.
  - split; [done|]. split; [|done]. intros Hn. destruct Hn. by apply Hiff.
  - split; [|done]. intros Hu. apply Hiff in Hu. congruence.
Qed.

Lemma prune_all_idem (s : list RepositoryRecord) (l : list nat) :
  prune_all (prune_all s l) l = prune_all s l.
Proof.
  apply list_eq. intros r. rewrite !prune_all_lookup. case_decide; [|done].
  destruct (s !! r); simpl; [|done]. by rewrite prune_distributors_idem.
Qed.

Lemma set_store_set_store st s s' :
  set_store (set_store st s) s' = set_store st s'.
Proof. done. Qed.

Lemma all_repos_raise_inv query_params st st1 e :
  _all_repos query_params st = (st1, inl e) →
  all_repos_cache st = None
  ∧ repositories (length (listing_calls st)) query_params = inl e
  ∧ st1 = {| all_repos_cache := None;
             store := store st;
             listing_calls := (listing_calls st ++ [query_params])%list |}.
Proof.
  unfold _all_repos. destruct (all_repos_cache st); [done|].
  destruct (repositories _ _); [|done]. by intros [= <- <-].
Qed.

(** After a call that left the listing cached, the pruned store and the
    selection are fixed. *)
Lemma get_repositories_on_pruned query_params st1 refs :
  all_repos_cache st1 = Some refs →
  forallb (valid_ref (store st1)) refs = true →
  let msi_repos := filter (λ r, win_at (store st1) r = true) refs in
  let st2 := set_store st1 (prune_all (store st1) msi_repos) in
  get_repositories query_params st2
  = (st2, if forallb (importers_ok (store st2)) msi_repos
          then inr msi_repos else inl IndexError).
Proof.
  intros Hc Hv msi st2.
  assert (all_repos_cache st2 = Some refs) as Hc2 by done.
  rewrite (get_repositories_from _ _ _ _ (all_repos_cached query_params st2 refs Hc2)).
  assert (forallb (valid_ref (store st2)) refs = true) as ->.
  { rewrite <- Hv. apply forallb_pointwise. intros r. apply valid_ref_prune_all. }
  cbv zeta.
  assert (filter (λ r, win_at (store st2) r = true) refs = msi) as ->.
  { apply filter_iff_on. intros r _. simpl. by rewrite win_at_prune_all. }
  simpl. rewrite prune_all_idem. done.
Qed.

(** X16. Once the listing is cached, calling [get_repositories] again
    (with whatever query) changes nothing and has the same outcome, an
    [IndexError] included. *)
Theorem get_repositories_again_changes_nothing
    query_params query_params' st st1 result :
  get_repositories query_params st = (st1, result) →
  is_Some (all_repos_cache st1) →
  get_repositories query_params' st1 = (st1, result).
Proof.
  intros Hget [refs1 Hc1].
  destruct (_all_repos query_params st) as [st0 [e|refs]] eqn:Hall.
  { rewrite (get_repositories_raise _ _ _ _ Hall) in Hget.
    injection Hget as <- <-.
    apply all_repos_raise_inv in Hall as (_ & _ & ->). done. }
  pose proof (all_repos_cache_after _ _ _ _ Hall) as Hc.
  rewrite (get_repositories_from _ _ _ _ Hall) in Hget.
  destruct (forallb (valid_ref (store st0)) refs) eqn:Hv.
  - cbv zeta in Hget. injection Hget as <- <-.
    by rewrite (get_repositories_on_pruned query_params' st0 refs Hc Hv).
  - injection Hget as <- <-.
    by rewrite (get_repositories_from _ _ _ _
                  (all_repos_cached query_params' st0 refs Hc)), Hv.
Qed.

(** X17. [get_other_repositories] changes the instance only as
    [_all_repos] does: with a cached listing the state is unchanged, and
    the records already in the store are never edited. *)
Theorem get_other_repositories_only_reads query_params st :
  (get_other_repositories query_params st).1 = (_all_repos query_params st).1
  ∧ (is_Some (all_repos_cache st) →
     (get_other_repositories query_params st).1 = st)
  ∧ (∀ r x, store st !! r = Some x →
       store (get_other_repositories query_params st).1 !! r = Some x).
Proof.
  assert ((get_other_repositories query_params st).1
          = (_all_repos query_params st).1) as Hsame.
  { destruct (_all_repos query_params st) as [st1 [e|refs]] eqn:Hall.
    - by rewrite (get_other_repositories_raise _ _ _ _ Hall).
    - by rewrite (get_other_repositories_from _ _ _ _ Hall). }
  split; [done|]. rewrite Hsame. split.
  - intros [refs Hc]. by rewrite (all_repos_cached _ _ _ Hc).
  - intros r x Hx. unfold _all_repos.
    destruct (all_repos_cache st); [done|].
    destruct (repositories _ _); simpl; [done|].
    by apply lookup_app_l_Some.
Qed.

(** X18. Whatever its outcome, [get_repositories] keeps every record
    of the listing in its place with its id, notes and importers; a
    record that is not tagged as WIN, or that has no [distributors], is
    unchanged. *)
Theorem get_repositories_edits_only_distributors_of_win_records
    query_params st r x :
  store (_all_repos query_params st).1 !! r = Some x →
  ∃ x',
    store (get_repositories query_params st).1 !! r = Some x'
    ∧ same_but_distributors x x'
    ∧ (has_win_note x = false → x' = x)
    ∧ (r_distributors x = None → x' = x).
Proof.
  intros Hx.
  destruct (_all_repos query_params st) as [st1 [e|refs]] eqn:Hall.
  { rewrite (get_repositories_raise _ _ _ _ Hall). by exists x. }
  rewrite (get_repositories_from _ _ _ _ Hall). simpl in Hx.
  destruct (forallb (valid_ref (store st1)) refs); [|by exists x].
  cbv zeta. simpl. rewrite prune_all_lookup, Hx.
  case_decide as Hin; [|by exists x].
  apply list_elem_of_filter in Hin as [Hwin _].
  unfold win_at, test_at in Hwin. rewrite Hx in Hwin.
  exists (prune_distributors x). simpl. split; [done|]. split.
  { unfold same_but_distributors.
    by rewrite prune_distributors_id, prune_distributors_notes,
      prune_distributors_importers. }
  split; [congruence|].
  intros Hd. unfold prune_distributors. by rewrite Hd.
Qed.

(** X19. A failed remote listing is not cached: the exception leaves
    either method, the store is unchanged, and the next call of either
    method asks the server again, with its own query. *)
Theorem failed_listing_is_asked_again query_params1 query_params2 st e :
  all_repos_cache st = None →
  repositories (length (listing_calls st)) query_params1 = inl e →
  let st1 :=
    {| all_repos_cache := None;
       store := store st;
       listing_calls := (listing_calls st ++ [query_params1])%list |} in
  get_repositories query_params1 st = (st1, inl e)
  ∧ get_other_repositories query_params1 st = (st1, inl e)
  ∧ listing_calls (get_repositories query_params2 st1).1
    = (listing_calls st ++ [query_params1; query_params2])%list
  ∧ listing_calls (get_other_repositories query_params2 st1).1
    = (listing_calls st ++ [query_params1; query_params2])%list.
Proof.
  intros Hc Hrep st1.
  pose proof (all_repos_fetched query_params1 st Hc) as Hall.
  rewrite Hrep in Hall. fold st1 in Hall.
  split; [by apply get_repositories_raise|].
  split; [by apply get_other_repositories_raise|].
  pose proof (all_repos_fetched query_params2 st1 eq_refl) as Hall2.
  assert (listing_calls (_all_repos query_params2 st1).1
          = (listing_calls st ++ [query_params1; query_params2])%list) as Hcalls.
  { rewrite Hall2. subst st1. cbn [listing_calls].
    match goal with
    | |- context [ match ?answer with inl _ => _ | inr _ => _ end ] =>
        destruct answer
    end; cbn [fst listing_calls]; by rewrite <- app_assoc. }
  destruct (_all_repos query_params2 st1) as [st2 [e2|refs]] eqn:Hall2'.
  - by rewrite (get_repositories_raise _ _ _ _ Hall2'),
      (get_other_repositories_raise _ _ _ _ Hall2').
  - rewrite (get_repositories_from _ _ _ _ Hall2'),
      (get_other_repositories_from _ _ _ _ Hall2').
    by destruct (forallb _ refs).
Qed.

(** X20. Once the listing can be fetched, [get_repositories] and
    [get_other_repositories] give the same results and leave the same
    state in either order. *)
Theorem listing_methods_commute query_params query_params' st st0 refs :
  _all_repos query_params st = (st0, inr refs) →
  let a1 := get_repositories query_params st in
  let a2 := get_other_repositories query_params' a1.1 in
  let b1 := get_other_repositories query_params st in
  let b2 := get_repositories query_params' b1.1 in
  a2.2 = b1.2 ∧ b2.2 = a1.2 ∧ a2.1 = b2.1.
Proof.
  intros Hall a1 a2 b1 b2.
  pose proof (all_repos_cache_after _ _ _ _ Hall) as Hc.
  subst a1 a2 b1 b2.
  rewrite (get_repositories_from _ _ _ _ Hall),
    (get_other_repositories_from _ _ _ _ Hall).
  destruct (forallb (valid_ref (store st0)) refs) eqn:Hv.
  - cbv zeta. simpl fst. simpl snd.
    set (msi := filter (λ r, win_at (store st0) r = true) refs).
    set (st2 := set_store st0 (prune_all (store st0) msi)).
    assert (all_repos_cache st2 = Some refs) as Hc2 by done.
    rewrite (get_other_repositories_from _ _ _ _
               (all_repos_cached query_params' st2 refs Hc2)).
    rewrite (get_repositories_from _ _ _ _
               (all_repos_cached query_params' st0 refs Hc)), Hv.
    assert (forallb (valid_ref (store st2)) refs = true) as ->.
    { rewrite <- Hv. apply forallb_pointwise. intros r.
      apply valid_ref_prune_all. }
    cbv zeta. simpl. split; [|split; reflexivity]. f_equal.
    apply filter_iff_on. intros r _. by rewrite other_at_prune_all.
  - simpl.
    by rewrite (get_repositories_from _ _ _ _
                  (all_repos_cached query_params' st0 refs Hc)),
      (get_other_repositories_from _ _ _ _
         (all_repos_cached query_params' st0 refs Hc)), Hv.
Qed.

(** X15. On an instance without cached listing whose server answers
    with a [body] in which no WIN record has an empty [importers] list,
    both methods return, the second without changing the state, and
    every record of [body] is in exactly one of the two results: in that
    of [get_repositories] exactly when it is tagged as WIN. *)
Theorem usable_listing_is_split_by_the_type_note
    query_params query_params' st body :
  all_repos_cache st = None →
  repositories (length (listing_calls st)) query_params = inr body →
  importers_usable body →
  ∃ st1 msi_repos non_msi_repos,
    get_repositories query_params st = (st1, inr msi_repos)
    ∧ get_other_repositories query_params' st1 = (st1, inr non_msi_repos)
    ∧ msi_repos ++ non_msi_repos ≡ₚ seq (length (store st)) (length body)
    ∧ ∀ i x, body !! i = Some x →
        ((length (store st) + i)%nat ∈ msi_repos ↔ has_win_note x = true)
        ∧ ((length (store st) + i)%nat ∈ non_msi_repos
           ↔ has_win_note x = false).
Proof.
  intros Hc Hrep Hu.
  pose proof (all_repos_fetched query_params st Hc) as Hall.
  rewrite Hrep in Hall. cbv zeta in Hall.
  pose proof (get_repositories_from _ _ _ _ Hall) as Hget.
  simpl in Hget. rewrite fetched_valid in Hget. cbv zeta in Hget.
  rewrite (proj2 (importers_checked (store st) body _) Hu) in Hget.
  set (st1 := set_store _ _) in Hget.
  set (msi := filter _ _) in Hget.
  assert (all_repos_cache st1
          = Some (seq (length (store st)) (length body))) as Hc1 by done.
  pose proof (get_other_repositories_from _ _ _ _
                (all_repos_cached query_params' st1 _ Hc1)) as Hoth.
  assert (forallb (valid_ref (store st1))
            (seq (length (store st)) (length body)) = true) as Hv1.
  { rewrite <- (fetched_valid (store st) body). apply forallb_pointwise.
    intros r. apply valid_ref_prune_all. }
  rewrite Hv1 in Hoth.
  destruct (listing_is_partitioned _ _ _ _ _ _ _ Hget Hoth)
    as (refs & Hrefs & Hperm & _ & Hmem).
  rewrite Hc1 in Hrefs. injection Hrefs as <-.
  eexists _, _, _. split; [exact Hget|]. split; [exact Hoth|].
  split; [exact Hperm|].
  intros i x Hx.
  assert (win_at (store st1) (length (store st) + i) = has_win_note x) as Hw.
  { subst st1. simpl. rewrite win_at_prune_all. unfold win_at, test_at.
    by rewrite fetched_lookup, Hx. }
  rewrite <- Hw. apply Hmem.
  apply list_elem_of_In, in_seq. apply lookup_lt_Some in Hx. lia.
Qed.
End ListingMethods.

(** ** Examples of the further properties *)

Section BuilderWitnesses.
#[local] Existing Instance documented_convention.

Lemma prep_config_translates_argument_keys_witness :
  (∀ k', is_Some (({[ "serve_http" := PyBool true ]} : gmap string pyval) !! k')
         → hyphen_free k')
  ∧ (∀ k' v, ({[ "serve_http" := PyBool true ]} : gmap string pyval) !! k'
             = Some v →
       ∃ k, str_replace "-" "_" k = k'
            ∧ ({[ "serve-http" := PyBool true ]} : gmap string pyval) !! k
              = Some v)
  ∧ (∀ k, is_Some (({[ "serve-http" := PyBool true ]} : gmap string pyval) !! k) →
       is_Some (({[ "serve_http" := PyBool true ]} : gmap string pyval)
                  !! str_replace "-" "_" k))
  ∧ (∀ k v, ({[ "serve-http" := PyBool true ]} : gmap string pyval) !! k
            = Some v →
       (∀ k2, is_Some (({[ "serve-http" := PyBool true ]} : gmap string pyval)
                         !! k2) →
          str_replace "-" "_" k2 = str_replace "-" "_" k → k2 = k) →
       ({[ "serve_http" := PyBool true ]} : gmap string pyval)
         !! str_replace "-" "_" k = Some v).
Proof.
  apply (prep_config_translates_argument_keys
           {[ "serve-http" := PyBool true ]} WIN_DISTRIBUTOR_CONFIG_KEYS
           {[ "serve_http" := PyBool true ]} {[ "http" := PyBool true ]}).
  vm_compute. reflexivity.
Defined.

Lemma prep_config_keeps_hyphen_free_arguments_witness :
  ({[ "skip" := PyStr "x" ]} : gmap string pyval) = {[ "skip" := PyStr "x" ]}.
Proof.
  apply (prep_config_keeps_hyphen_free_arguments
           {[ "skip" := PyStr "x" ]} WIN_DISTRIBUTOR_CONFIG_KEYS
           {[ "skip" := PyStr "x" ]} {[ "skip" := PyStr "x" ]}).
  - intros k [v Hv]. apply lookup_singleton_Some in Hv as [<- _].
    apply hyphen_free_fixed. reflexivity.
  - vm_compute. reflexivity.
Defined.

Lemma prep_config_again_gives_the_same_witness :
  outcome (_prep_config {[ "serve_http" := PyBool true ]}
             WIN_DISTRIBUTOR_CONFIG_KEYS)
  = inr ({[ "serve_http" := PyBool true ]}, {[ "http" := PyBool true ]}).
Proof.
  apply (prep_config_again_gives_the_same {[ "serve-http" := PyBool true ]}).
  vm_compute. reflexivity.
Defined.
End BuilderWitnesses.

Section CommandWitnesses.
#[local] Existing Instance example_names.
#[local] Existing Instance documented_convention.
#[local] Existing Instance accepting_server.

Lemma run_without_repo_id_raises_KeyError_witness :
  MsiRepoCreateCommand_run ∅ = ([], inl (KeyError OPTION_REPO_ID_keyword))
  ∧ MsiRepoUpdateCommand_run ∅ = ([], inl (KeyError OPTION_REPO_ID_keyword)).
Proof.
  apply (run_without_repo_id_raises_KeyError ∅). apply lookup_empty.
Defined.

Lemma create_with_unusable_notes_raises_witness :
  MsiRepoCreateCommand_run
    {[ "repo-id" := PyStr "win1"; "note" := PyStr "k=v" ]}
  = ([], inl TypeError).
Proof.
  destruct (create_with_unusable_notes_raises
              {[ "repo-id" := PyStr "win1"; "note" := PyStr "k=v" ]}
              (PyStr "win1")) as [_ Hraises].
  { vm_compute. reflexivity. }
  apply (Hraises (PyStr "k=v")).
  - vm_compute. reflexivity.
  - discriminate.
  - discriminate.
  - discriminate.
  - reflexivity.
  - discriminate.
Defined.

Lemma create_outcome_is_the_answer_of_the_server_witness :
  outcome (MsiRepoCreateCommand_run example_kwargs) = inr tt
  ∧ last (trace (MsiRepoCreateCommand_run example_kwargs))
    = Some (render_success_message
              (Successfully_created_repository (PyStr "win1"))).
Proof.
  assert (call_create_and_configure (PyStr "win1") PyNone PyNone
            (PyDict {[ REPO_NOTE_TYPE_KEY := PyStr REPO_NOTE_WIN ]})
            TYPE_ID_IMPORTER_WIN ∅ [example_descriptor]
          ∈ trace (MsiRepoCreateCommand_run example_kwargs)) as Hin
    by in_trace.
  exact (create_outcome_is_the_answer_of_the_server example_kwargs
           (PyStr "win1") PyNone PyNone
           (PyDict {[ REPO_NOTE_TYPE_KEY := PyStr REPO_NOTE_WIN ]})
           TYPE_ID_IMPORTER_WIN ∅ [example_descriptor] Hin).
Defined.

Lemma update_reports_by_the_answer_of_the_server_witness :
  ∃ built,
    Forall (λ ev, is_builder_event ev = true) built
    ∧ MsiRepoUpdateCommand_run example_kwargs
      = ((built
          ++ [call_update_repo_and_plugins (PyStr "win1") PyNone PyNone PyNone
                ∅ {[ TYPE_ID_DISTRIBUTOR_WIN := {[ "http" := PyBool true ]} ]};
              render_success_message
                (Repository_successfully_updated (PyStr "win1"))])%list,
         inr tt).
Proof.
  assert (call_update_repo_and_plugins (PyStr "win1") PyNone PyNone PyNone
            ∅ {[ TYPE_ID_DISTRIBUTOR_WIN := {[ "http" := PyBool true ]} ]}
          ∈ trace (MsiRepoUpdateCommand_run example_kwargs)) as Hin
    by in_trace.
  exact (update_reports_by_the_answer_of_the_server example_kwargs
           (PyStr "win1") PyNone PyNone PyNone ∅
           {[ TYPE_ID_DISTRIBUTOR_WIN := {[ "http" := PyBool true ]} ]} Hin).
Defined.

Lemma create_call_carries_the_arguments_witness :
  example_kwargs !! OPTION_REPO_ID_keyword = Some (PyStr "win1")
  ∧ PyNone = argument example_kwargs OPTION_DESCRIPTION_keyword
  ∧ PyNone = argument example_kwargs OPTION_NAME_keyword
  ∧ TYPE_ID_IMPORTER_WIN = TYPE_ID_IMPORTER_WIN
  ∧ ∃ config, [example_descriptor] = [win_descriptor config].
Proof.
  apply (create_call_carries_the_arguments example_kwargs
           (PyStr "win1") PyNone PyNone
           (PyDict {[ REPO_NOTE_TYPE_KEY := PyStr REPO_NOTE_WIN ]})
           TYPE_ID_IMPORTER_WIN ∅ [example_descriptor]).
  - apply (bool_decide_unpack _). vm_compute. exact I.
  - in_trace.
Defined.

Lemma update_call_carries_the_arguments_witness :
  example_kwargs !! OPTION_REPO_ID_keyword = Some (PyStr "win1")
  ∧ PyNone = argument example_kwargs OPTION_DESCRIPTION_keyword
  ∧ PyNone = argument example_kwargs OPTION_NAME_keyword
  ∧ PyNone = argument example_kwargs OPTION_NOTES_keyword
  ∧ ∃ config,
      ({[ TYPE_ID_DISTRIBUTOR_WIN := {[ "http" := PyBool true ]} ]}
         : gmap string (gmap string pyval))
      = {[ TYPE_ID_DISTRIBUTOR_WIN := config ]}.
Proof.
  apply (update_call_carries_the_arguments example_kwargs
           (PyStr "win1") PyNone PyNone PyNone ∅
           {[ TYPE_ID_DISTRIBUTOR_WIN := {[ "http" := PyBool true ]} ]}).
  - apply (bool_decide_unpack _). vm_compute. exact I.
  - in_trace.
Defined.
End CommandWitnesses.

Section ListingWitnesses.
#[local] Existing Instance example_names.
#[local] Existing Instance example_listing_server.

Lemma get_repositories_raises_exactly_on_empty_importers_witness :
  (importers_usable [example_win_repo; example_other_repo] →
   (get_repositories ∅ new_command).2
   = inr (filter
            (λ r, win_at (store new_command
                          ++ [example_win_repo; example_other_repo]) r = true)
            (seq (length (store new_command))
               (length [example_win_repo; example_other_repo]))))
  ∧ (¬ importers_usable [example_win_repo; example_other_repo] →
     (get_repositories ∅ new_command).2 = inl IndexError)
  ∧ all_repos_cache (get_repositories ∅ new_command).1
    = Some (seq (length (store new_command))
              (length [example_win_repo; example_other_repo]))
  ∧ listing_calls (get_repositories ∅ new_command).1
    = (listing_calls new_command ++ [∅])%list.
Proof.
  apply (get_repositories_raises_exactly_on_empty_importers ∅ new_command
           [example_win_repo; example_other_repo]); reflexivity.
Defined.

Lemma usable_listing_is_split_by_the_type_note_witness :
  ∃ st1 msi_repos non_msi_repos,
    get_repositories ∅ new_command = (st1, inr msi_repos)
    ∧ get_other_repositories ∅ st1 = (st1, inr non_msi_repos)
    ∧ msi_repos ++ non_msi_repos
      ≡ₚ seq (length (store new_command))
           (length [example_win_repo; example_other_repo])
    ∧ ∀ i x, [example_win_repo; example_other_repo] !! i = Some x →
        ((length (store new_command) + i)%nat ∈ msi_repos
         ↔ has_win_note x = true)
        ∧ ((length (store new_command) + i)%nat ∈ non_msi_repos
           ↔ has_win_note x = false).
Proof.
  apply (usable_listing_is_split_by_the_type_note ∅ ∅ new_command
           [example_win_repo; example_other_repo]).
  - reflexivity.
  - reflexivity.
  - repeat constructor; intros _; discriminate.
Defined.

Lemma get_repositories_again_changes_nothing_witness :
  get_repositories ∅ example_listed = (example_listed, inr [0]).
Proof.
  apply (get_repositories_again_changes_nothing ∅ ∅ new_command).
  - vm_compute. reflexivity.
  - by eexists.
Defined.

Lemma get_repositories_edits_only_distributors_of_win_records_witness :
  ∃ x',
    store (get_repositories ∅ new_command).1 !! 1 = Some x'
    ∧ same_but_distributors example_other_repo x'
    ∧ (has_win_note example_other_repo = false → x' = example_other_repo)
    ∧ (r_distributors example_other_repo = None → x' = example_other_repo).
Proof.
  apply (get_repositories_edits_only_distributors_of_win_records
           ∅ new_command 1 example_other_repo).
  reflexivity.
Defined.

Lemma listing_methods_commute_witness :
  (get_other_repositories ∅ (get_repositories ∅ new_command).1).2
  = (get_other_repositories ∅ new_command).2
  ∧ (get_repositories ∅ (get_other_repositories ∅ new_command).1).2
    = (get_repositories ∅ new_command).2
  ∧ (get_other_repositories ∅ (get_repositories ∅ new_command).1).1
    = (get_repositories ∅ (get_other_repositories ∅ new_command).1).1.
Proof.
  apply (listing_methods_commute ∅ ∅ new_command example_fetched [0; 1]).
  reflexivity.
Defined.
End ListingWitnesses.

Section FailingListingWitness.
#[local] Existing Instance example_names.
#[local] Existing Instance failing_listing_server.

Lemma failed_listing_is_asked_again_witness :
  get_repositories ∅ new_command
  = ({| all_repos_cache := None;
        store := store new_command;
        listing_calls := (listing_calls new_command ++ [∅])%list |},
     inl (RemoteError "unreachable"))
  ∧ get_other_repositories ∅ new_command
    = ({| all_repos_cache := None;
          store := store new_command;
          listing_calls := (listing_calls new_command ++ [∅])%list |},
       inl (RemoteError "unreachable"))
  ∧ listing_calls
      (get_repositories {[ "details" := PyBool true ]}
         {| all_repos_cache := None;
            store := store new_command;
            listing_calls := (listing_calls new_command ++ [∅])%list |}).1
    = (listing_calls new_command ++ [∅; {[ "details" := PyBool true ]}])%list
  ∧ listing_calls
      (get_other_repositories {[ "details" := PyBool true ]}
         {| all_repos_cache := None;
            store := store new_command;
            listing_calls := (listing_calls new_command ++ [∅])%list |}).1
    = (listing_calls new_command ++ [∅; {[ "details" := PyBool true ]}])%list.
Proof.
  apply (failed_listing_is_asked_again ∅ {[ "details" := PyBool true ]}
           new_command (RemoteError "unreachable")); reflexivity.
Defined.
End FailingListingWitness.
